(** * grizzly_motion: the motion safety supervisor

    A shallow embedding of [encoders_monitor.cpp] and
    [motion_safety_node.cpp] of the [grizzly_motion] package, and the
    properties of the encoder failure detector, of the safety state machine
    and of the per-wheel change limiter.

    Modelling conventions.
    - [ros::Time] and [ros::Duration] are integer nanosecond counts ([Z]);
      the dual 32-bit range check of roscpp is not modelled, all times are
      taken to be in range.
    - Wheel speeds ([double] in the messages) are rationals ([Q]), every
      finite double being one; a subtraction or division of doubles is the
      exact operation followed by rounding to the nearest binary64 value,
      ties to even, while comparisons and absolute values are exact as they
      are in the machine.  Infinities and NaN are not modelled: the
      messages are taken to carry finite values and the operations not to
      overflow; [double.finite] names the range in which they do not.
    - The clock is an input.  A run of the watchdog calls
      [ros::Time::now()] up to eight times, each call a reading of its own:
      the definitions whose names end in [At] take the readings one by one.
      The definitions of the same names without [At] are these with a
      steady clock, where every reading of a run returns the same time
      [now]; the traces of calls run the watchdog so.  The other callbacks
      take one reading [now].
    - Publishing on a topic appends to the list of published messages that
      each callback returns.
    - The diagnostic updater and the frequency ticks only read the state of
      the two classes; they are left out. *)

From Stdlib Require Import ZArith QArith Qabs Qpower Lqa Lia List String Bool.
From stdpp Require Import base list.
Import ListNotations.

Open Scope Z_scope.

(** ** Time *)

Module ros.

Definition Time : Type := Z.
Definition Duration : Type := Z.

(** [ros::Time()], the value of a default-constructed time stamp. *)
Definition Time0 : Time := 0.

(** [ros::Duration(d)] for the literals the two files use. *)
Definition msec (n : Z) : Duration := n * 1000000.
Definition sec (n : Z) : Duration := n * 1000000000.

(** [Duration::toSec()]. *)
Definition toSec (d : Duration) : Q := (inject_Z d / inject_Z 1000000000)%Q.

End ros.

(** ** Messages *)

Module grizzly_msgs.

(** [grizzly_msgs/Drive]: the header stamp and the four wheel speeds. *)
Record Drive : Type := mkDrive {
  stamp : ros.Time;
  front_left : Q;
  front_right : Q;
  rear_left : Q;
  rear_right : Q
}.

(** A member pointer [double Drive::*], as handed to the change limiters. *)
Inductive DriveField : Type := FrontLeft | FrontRight | RearLeft | RearRight.

Definition get_field (f : DriveField) (d : Drive) : Q :=
  match f with
  | FrontLeft => front_left d
  | FrontRight => front_right d
  | RearLeft => rear_left d
  | RearRight => rear_right d
  end.

Definition set_field (f : DriveField) (x : Q) (d : Drive) : Drive :=
  match f with
  | FrontLeft => mkDrive (stamp d) x (front_right d) (rear_left d) (rear_right d)
  | FrontRight => mkDrive (stamp d) (front_left d) x (rear_left d) (rear_right d)
  | RearLeft => mkDrive (stamp d) (front_left d) (front_right d) x (rear_right d)
  | RearRight => mkDrive (stamp d) (front_left d) (front_right d) (rear_left d) x
  end.

(** [VectorDrive] is an Eigen 4-vector of doubles. *)
Abbreviation VectorDrive := (list Q) (only parsing).

(** Modelled from the spec: [vectorFromDriveMsg] lives in the message
    package's headers; the wheel ordering is the fixed one of the data
    model (front left, front right, rear left, rear right). *)
Definition vectorFromDriveMsg (d : Drive) : VectorDrive :=
  [front_left d; front_right d; rear_left d; rear_right d].

(** Modelled from the spec: the stationary test of the message package,
    with its epsilon: a message is stationary when no wheel speed exceeds
    the epsilon in magnitude. *)
Definition isStationary_eps (eps : Q) (d : Drive) : bool :=
  forallb (fun x => Qle_bool (Qabs x) eps) (vectorFromDriveMsg d).

(** [grizzly_msgs/RawStatus]: header stamp and the error bit mask. *)
Record RawStatus : Type := mkRawStatus {
  status_stamp : ros.Time;
  error : Z
}.

(** [grizzly_msgs/Ambience]: four pattern codes, zero by default. *)
Record Ambience : Type := mkAmbience {
  beacon : Z;
  headlight : Z;
  taillight : Z;
  beep : Z
}.

Definition Ambience0 : Ambience := mkAmbience 0 0 0 0.

End grizzly_msgs.

Import grizzly_msgs.

(** ** Double precision arithmetic *)

Module double.

(** The integer [e] with [2^e <= n/d < 2^(e+1)]. *)
Definition ilog2 (n d : positive) : Z :=
  let e0 := Z.log2 (Zpos n) - Z.log2 (Zpos d) in
  let reached :=
    if 0 <=? e0 then 2 ^ e0 * Zpos d <=? Zpos n
    else Zpos d <=? Zpos n * 2 ^ (- e0) in
  if reached then e0 else e0 - 1.

(** The integer nearest to [num/den], for [den] positive; of two equally
    near the even one. *)
Definition nearest_even (num den : Z) : Z :=
  let k := num / den in
  let r := num mod den in
  match 2 * r ?= den with
  | Lt => k
  | Gt => k + 1
  | Eq => if Z.even k then k else k + 1
  end.

(** The exponent of the spacing of the doubles around [n/d]: 52 below the
    exponent of [n/d], and no lower than -1074, the spacing of the
    subnormal values. *)
Definition spacing (n d : positive) : Z := Z.max (ilog2 n d) (-1022) - 52.

(** The binary64 value nearest to [n/d]: a multiple of [2^q], with [q] the
    exponent of the spacing. *)
Definition round_pos (n d : positive) : Q :=
  let q := spacing n d in
  if 0 <=? q
  then inject_Z (nearest_even (Zpos n) (Zpos d * 2 ^ q) * 2 ^ q)
  else Qred (nearest_even (Zpos n * 2 ^ (- q)) (Zpos d) # Z.to_pos (2 ^ (- q))).

(** Rounding to nearest, ties to even, of a rational in the range of the
    finite doubles.  The result is in lowest terms. *)
Definition round (x : Q) : Q :=
  let x' := Qred x in
  match Qnum x' with
  | Z0 => 0%Q
  | Zpos n => round_pos n (Qden x')
  | Zneg n => (- round_pos n (Qden x'))%Q
  end.

(** [a - b] and [a / b] on doubles. *)
Definition sub (a b : Q) : Q := round (a - b).
Definition div (a b : Q) : Q := round (a / b).

(** The finite doubles stop short of [2^1024]: an exact result of
    magnitude at most [2^1023] rounds to one of them, a larger one may
    round to an infinity, which [round] does not have. *)
Definition finite (x : Q) : Prop := (Qabs x <= inject_Z (2 ^ 1023))%Q.


End double.

(** ** The Eigen operations used by the detector *)

Module Eigen.

Definition Qltb (x y : Q) : bool := negb (Qle_bool y x).

(** [a - b], coefficient by coefficient. *)
Definition minus (a b : VectorDrive) : VectorDrive := zip_with double.sub a b.

Definition cwiseAbs (v : VectorDrive) : VectorDrive := map Qabs v.

(** [v[i]]; the callers only index inside the vector. *)
Definition coeff (v : VectorDrive) (i : nat) : Q := default 0%Q (v !! i).

(** The visitor behind [maxCoeff]: it starts from the first coefficient
    and moves on only to a strictly greater one, so that of several equal
    maxima the first is reported. *)
Fixpoint max_visit (res : Q) (row : nat) (i : nat) (v : list Q) : Q * nat :=
  match v with
  | [] => (res, row)
  | x :: v' =>
      if Qltb res x then max_visit x i (S i) v' else max_visit res row (S i) v'
  end.

Definition maxCoeff (v : VectorDrive) : Q * nat :=
  match v with
  | [] => (0%Q, 0%nat)
  | x :: v' => max_visit x 0%nat 1%nat v'
  end.

End Eigen.

(** ** The diagnostic status handed to the monitors *)

Module diagnostic_updater.

(** [DiagnosticStatusWrapper], as far as the monitor writes to it: the
    level and message of the summary, and the key/value pairs added (the
    only value added here is a number of seconds). *)
Record DiagnosticStatusWrapper : Type := mkStat {
  level : Z;
  message : string;
  values : list (string * Q)
}.

Definition summary (lvl : Z) (msg : string) (stat : DiagnosticStatusWrapper)
  : DiagnosticStatusWrapper :=
  mkStat lvl msg (values stat).

Definition add (key : string) (value : Q) (stat : DiagnosticStatusWrapper)
  : DiagnosticStatusWrapper :=
  mkStat (level stat) (message stat) (values stat ++ [(key, value)]).

End diagnostic_updater.

(** ** EncodersMonitor *)

Module EncodersMonitor.

Record t : Type := mk {
  encoders_timeout : ros.Duration;
  encoder_speed_error_diff_threshold : Q;
  encoder_fault_time_to_failure : ros.Duration;
  failed_encoder_ : Z;
  last_received_encoders_ : option Drive;
  last_received_drive_ : option Drive;
  time_of_last_nonsuspect_encoders_ : ros.Time
}.

(** The constructor: the two durations come from the parameter server and
    default to 0.11 s and 0.5 s; no failed encoder ([-1]), no message
    received, the time of the last clean reading default-constructed. *)
Definition new (timeout time_to_failure : ros.Duration) : t :=
  mk timeout 0.5%Q time_to_failure (-1) None None ros.Time0.

Definition init : t := new (ros.msec 110) (ros.msec 500).

Definition set_failed_encoder (i : Z) (m : t) : t :=
  mk (encoders_timeout m) (encoder_speed_error_diff_threshold m)
     (encoder_fault_time_to_failure m) i
     (last_received_encoders_ m) (last_received_drive_ m)
     (time_of_last_nonsuspect_encoders_ m).

Definition set_time_of_last_nonsuspect (x : ros.Time) (m : t) : t :=
  mk (encoders_timeout m) (encoder_speed_error_diff_threshold m)
     (encoder_fault_time_to_failure m) (failed_encoder_ m)
     (last_received_encoders_ m) (last_received_drive_ m) x.

Definition age (now : ros.Time) (msg : Drive) : ros.Duration := now - stamp msg.

(** [detectFailedEncoderCandidate]: called with both messages present.
    The index is written through the pointer whatever the verdict, so the
    model returns the pair of the verdict and the index. *)
Definition detectFailedEncoderCandidate (m : t) (encoders drive : Drive)
  : bool * nat :=
  let wheelSpeedMeasured := vectorFromDriveMsg encoders in
  let wheelSpeedCommanded := vectorFromDriveMsg drive in
  let wheelSpeedError :=
    Eigen.cwiseAbs (Eigen.minus wheelSpeedMeasured wheelSpeedCommanded) in
  let '(max_error, candidate) := Eigen.maxCoeff wheelSpeedError in
  let wheelSpeedError' := <[candidate := 0%Q]> wheelSpeedError in
  let max_error_diff := double.sub max_error (fst (Eigen.maxCoeff wheelSpeedError')) in
  if Eigen.Qltb (double.round 0.01) (Eigen.coeff wheelSpeedMeasured candidate)
  then (false, candidate)
  else if Eigen.Qltb max_error_diff (encoder_speed_error_diff_threshold m)
  then (false, candidate)
  else (true, candidate).

(** The verdict and the index read as one optional wheel index. *)
Definition detect_candidate (m : t) (encoders drive : Drive) : option nat :=
  let '(suspect, candidate) := detectFailedEncoderCandidate m encoders drive in
  if suspect then Some candidate else None.

(** The absolute speed error of wheel [j], measured against commanded, as
    the detector computes it. *)
Definition wheel_error (encoders drive : Drive) (j : nat) : Q :=
  Qabs (double.sub (Eigen.coeff (vectorFromDriveMsg encoders) j)
                   (Eigen.coeff (vectorFromDriveMsg drive) j)).

(** The speeds for which no subtraction of the detector overflows: the
    exact difference of measured and commanded is in range at each wheel.
    The errors are then at most [2^1023], and so is the difference of any
    two of them. *)
Definition in_range (encoders drive : Drive) : Prop :=
  Forall double.finite
    (zip_with Qminus (vectorFromDriveMsg encoders) (vectorFromDriveMsg drive)).

(** [M] is the first of the indices below [n] at which [f] is largest. *)
Definition first_argmax (n : nat) (f : nat -> Q) (M : nat) : Prop :=
  (M < n)%nat /\
  (forall j, (j < n)%nat -> (f j <= f M)%Q) /\
  (forall j, (j < M)%nat -> (f j < f M)%Q).

(** [s] is the largest value of [f] at the indices below [n] other than
    [M]: with [M] an index of the largest value, the second-largest. *)
Definition second_largest_is (n : nat) (f : nat -> Q) (M : nat) (s : Q) : Prop :=
  (forall j, (j < n)%nat -> j <> M -> (f j <= s)%Q) /\
  (exists j, (j < n)%nat /\ j <> M /\ (s == f j)%Q).

(** The value of [f] at [M] exceeds the second-largest by at least [thr],
    the difference being the one the detector computes. *)
Definition exceeds_second (n : nat) (thr : Q) (f : nat -> Q) (M : nat) : Prop :=
  exists s, second_largest_is n f M s /\ (thr <= double.sub (f M) s)%Q.

Definition detectFailedEncoder (m : t) : bool * t :=
  match last_received_encoders_ m, last_received_drive_ m with
  | Some encoders, Some drive =>
      let '(suspect, candidate_failed_encoder) :=
        detectFailedEncoderCandidate m encoders drive in
      if suspect then
        if stamp encoders - time_of_last_nonsuspect_encoders_ m
           >? encoder_fault_time_to_failure m
        then (true, set_failed_encoder (Z.of_nat candidate_failed_encoder) m)
        else (false, m)
      else (false, set_time_of_last_nonsuspect (stamp encoders) m)
  | _, _ => (false, m)
  end.

(** [ok] takes the age of the feedback and the age of the command, each
    with a reading of the clock of its own: [now_encoders] and
    [now_drive]. *)
Definition okAt (now_encoders now_drive : ros.Time) (m : t) : bool * t :=
  match last_received_encoders_ m with
  | None => (false, m)
  | Some encoders =>
      if age now_encoders encoders >? encoders_timeout m then (false, m)
      else
        match last_received_drive_ m with
        | None => (true, m)
        | Some drive =>
            if age now_drive drive >? encoders_timeout m then (true, m)
            else
              let '(failed, m') := detectFailedEncoder m in
              if failed then (false, m') else (true, m')
        end
  end.

(** [ok] with a steady clock. *)
Definition ok (now : ros.Time) (m : t) : bool * t := okAt now now m.

Definition encodersCallback (encoders : Drive) (m : t) : t :=
  mk (encoders_timeout m) (encoder_speed_error_diff_threshold m)
     (encoder_fault_time_to_failure m) (failed_encoder_ m)
     (Some encoders) (last_received_drive_ m)
     (time_of_last_nonsuspect_encoders_ m).

Definition driveCallback (drive : Drive) (m : t) : t :=
  mk (encoders_timeout m) (encoder_speed_error_diff_threshold m)
     (encoder_fault_time_to_failure m) (failed_encoder_ m)
     (last_received_encoders_ m) (Some drive)
     (time_of_last_nonsuspect_encoders_ m).

Section Stationary.

(** [grizzly_msgs::isStationary] is declared in the message package; the
    monitor only uses its verdict. *)
Variable isStationary : Drive -> bool.

Definition moving (m : t) : bool :=
  match last_received_encoders_ m with
  | Some encoders => negb (isStationary encoders)
  | None => false
  end.

End Stationary.

(** The entry points of the monitor, as a trace of calls. *)
Inductive call : Type :=
| call_encodersCallback (encoders : Drive)
| call_driveCallback (drive : Drive)
| call_detectFailedEncoder
| call_ok (now : ros.Time).

Definition step (m : t) (c : call) : t :=
  match c with
  | call_encodersCallback e => encodersCallback e m
  | call_driveCallback d => driveCallback d m
  | call_detectFailedEncoder => snd (detectFailedEncoder m)
  | call_ok now => snd (ok now m)
  end.

Definition run (m : t) (cs : list call) : t := fold_left step cs m.

(** The feedback messages that a trace of calls delivers. *)
Definition delivers (cs : list call) (encoders : Drive) : Prop :=
  In (call_encodersCallback encoders) cs.

(** The state of the debounce within [ttf] of a clean sample stamped
    [t0]: the latch still holds [failed0], the time of the last clean
    reading is no older than [t0], and the feedback at hand is stamped
    between [t0] and [t0 + ttf]. *)
Definition debouncing (t0 : ros.Time) (ttf : ros.Duration) (failed0 : Z) (m : t)
  : Prop :=
  encoder_fault_time_to_failure m = ttf /\
  failed_encoder_ m = failed0 /\
  t0 <= time_of_last_nonsuspect_encoders_ m /\
  (forall encoders, last_received_encoders_ m = Some encoders ->
                    t0 <= stamp encoders <= t0 + ttf).

Section Diagnostic.

(** [grizzly_msgs::nameFromDriveIndex] is declared in the message package;
    the monitor only splices its answer into the summary. *)
Variable nameFromDriveIndex : Z -> string.

(** [diagnostic], called at 1 Hz by the updater. *)
Definition diagnostic (now : ros.Time) (m : t)
    (stat : diagnostic_updater.DiagnosticStatusWrapper)
  : diagnostic_updater.DiagnosticStatusWrapper :=
  match last_received_encoders_ m with
  | None => diagnostic_updater.summary 2 "No encoders messages received." stat
  | Some encoders =>
      let stat1 :=
        diagnostic_updater.add "Age of last encoders message"
          (ros.toSec (age now encoders)) stat in
      if age now encoders >? encoders_timeout m
      then diagnostic_updater.summary 2 "Last encoders message is stale." stat1
      else if failed_encoder_ m >=? 0
      then
        let wheel_str := nameFromDriveIndex (failed_encoder_ m) in
        diagnostic_updater.summary 2
          ("Encoder failure detected in " ++ wheel_str
           ++ " wheel. Not a recoverable error, please service system.")%string
          stat1
      else diagnostic_updater.summary 0 "Encoders look good." stat1
  end.

End Diagnostic.

(** The two subscriptions among the calls. *)
Definition is_message (c : call) : bool :=
  match c with
  | call_encodersCallback _ | call_driveCallback _ => true
  | _ => false
  end.

(** The feedback and the command last delivered by a trace of calls, if
    any, over what was at hand before. *)
Definition last_feedback (cs : list call) (before : option Drive) : option Drive :=
  fold_left (fun acc c => match c with call_encodersCallback e => Some e | _ => acc end)
            cs before.

Definition last_command (cs : list call) (before : option Drive) : option Drive :=
  fold_left (fun acc c => match c with call_driveCallback d => Some d | _ => acc end)
            cs before.

End EncodersMonitor.

(** ** DriveChangeLimiter *)

Module DriveChangeLimiter.

(** Modelled from the spec: [change_limiter.h] is not part of the sources
    at hand.  The state of a limiter is the rate fixed at construction,
    the member pointer it was constructed with, and the optional previous
    output and previous time stamp. *)
Record t : Type := mk {
  max_rate : Q;
  field_ptr : DriveField;
  previous_output : option Q;
  previous_timestamp : option ros.Time
}.

(** Modelled from the spec: the constructor of [change_limiter.h]; a new
    limiter has no previous state. *)
Definition new (rate : Q) (f : DriveField) : t := mk rate f None None.

(** Modelled from the spec: [clamp(x, lo, hi)] of the limiter contract. *)
Definition clamp (x lo hi : Q) : Q :=
  if Eigen.Qltb x lo then lo else if Eigen.Qltb hi x then hi else x.

(** Modelled from the spec: the scalar contract of [apply].  The first
    call passes the command through; a later call clamps it to within
    [max_rate * dt] of the previous output; both store the output and the
    time. *)
Definition limit (commanded : Q) (now : ros.Time) (l : t) : Q * t :=
  match previous_output l, previous_timestamp l with
  | Some prev, Some tprev =>
      let dt := ros.toSec (now - tprev) in
      let max_delta := (max_rate l * dt)%Q in
      let output := clamp commanded (prev - max_delta)%Q (prev + max_delta)%Q in
      (output, mk (max_rate l) (field_ptr l) (Some output) (Some now))
  | _, _ =>
      (commanded, mk (max_rate l) (field_ptr l) (Some commanded) (Some now))
  end.

(** Modelled from the spec: [apply(msg_in, msg_out)] of [change_limiter.h]
    as the node calls it: the limiter reads its field of the inbound
    message and writes the limited value to the same field of the
    outbound one. *)
Definition apply (now : ros.Time) (msg_in msg_out : Drive) (l : t) : Drive * t :=
  let '(output, l') := limit (get_field (field_ptr l) msg_in) now l in
  (set_field (field_ptr l) output msg_out, l').

(** A sequence of [limit] calls on one limiter, and the outputs it gives. *)
Fixpoint outputs (l : t) (calls : list (Q * ros.Time)) : list Q :=
  match calls with
  | [] => []
  | (commanded, now) :: calls' =>
      let '(output, l') := limit commanded now l in
      output :: outputs l' calls'
  end.

(** The time stamps of a sequence of calls increase strictly from each
    call to the next. *)
Definition increasing (calls : list (Q * ros.Time)) : Prop :=
  forall k c c', calls !! k = Some c -> calls !! S k = Some c' -> snd c < snd c'.

End DriveChangeLimiter.

(** ** MotionSafety *)

Module MotionStates.

Inductive t : Type := Stopped | Starting | Moving | PendingStopped | Fault.

Definition eqb (a b : t) : bool :=
  match a, b with
  | Stopped, Stopped | Starting, Starting | Moving, Moving
  | PendingStopped, PendingStopped | Fault, Fault => true
  | _, _ => false
  end.

End MotionStates.

Module MotionSafety.

Import MotionStates.

Record t : Type := mk {
  width_ : Q;
  radius_ : Q;
  max_accel_ : Q;
  starting_duration_ : ros.Duration;
  state_ : MotionStates.t;
  fault_reason_ : string;
  last_mcu_status_ : option RawStatus;
  last_non_precharge_time_ : ros.Time;
  last_commanded_movement_time_ : ros.Time;
  transition_to_moving_time_ : ros.Time;
  encoders_monitor_ : EncodersMonitor.t;
  accel_limiters_ : list DriveChangeLimiter.t
}.

(** What the node publishes: [mcu/estop], [mcu/ambience], [safe_cmd_drive]. *)
Inductive published : Type :=
| pub_estop (data : bool)
| pub_ambience (a : Ambience)
| pub_safe_drive (d : Drive).

(** The constructor; the three vehicle parameters are read from the
    parameter server. *)
Definition new (width radius max_accel : Q) : t :=
  mk width radius max_accel (ros.sec 2) Stopped EmptyString None
     ros.Time0 ros.Time0 ros.Time0 EncodersMonitor.init
     [ DriveChangeLimiter.new (double.div max_accel radius) FrontLeft;
       DriveChangeLimiter.new (double.div max_accel radius) FrontRight;
       DriveChangeLimiter.new (double.div max_accel radius) RearLeft;
       DriveChangeLimiter.new (double.div max_accel radius) RearRight ].

Definition set_state (s : MotionStates.t) (ms : t) : t :=
  mk (width_ ms) (radius_ ms) (max_accel_ ms) (starting_duration_ ms) s
     (fault_reason_ ms) (last_mcu_status_ ms) (last_non_precharge_time_ ms)
     (last_commanded_movement_time_ ms) (transition_to_moving_time_ ms)
     (encoders_monitor_ ms) (accel_limiters_ ms).

Definition set_fault_reason (r : string) (ms : t) : t :=
  mk (width_ ms) (radius_ ms) (max_accel_ ms) (starting_duration_ ms)
     (state_ ms) r (last_mcu_status_ ms) (last_non_precharge_time_ ms)
     (last_commanded_movement_time_ ms) (transition_to_moving_time_ ms)
     (encoders_monitor_ ms) (accel_limiters_ ms).

Definition set_last_mcu_status (st : RawStatus) (ms : t) : t :=
  mk (width_ ms) (radius_ ms) (max_accel_ ms) (starting_duration_ ms)
     (state_ ms) (fault_reason_ ms) (Some st) (last_non_precharge_time_ ms)
     (last_commanded_movement_time_ ms) (transition_to_moving_time_ ms)
     (encoders_monitor_ ms) (accel_limiters_ ms).

Definition set_last_non_precharge_time (x : ros.Time) (ms : t) : t :=
  mk (width_ ms) (radius_ ms) (max_accel_ ms) (starting_duration_ ms)
     (state_ ms) (fault_reason_ ms) (last_mcu_status_ ms) x
     (last_commanded_movement_time_ ms) (transition_to_moving_time_ ms)
     (encoders_monitor_ ms) (accel_limiters_ ms).

Definition set_last_commanded_movement_time (x : ros.Time) (ms : t) : t :=
  mk (width_ ms) (radius_ ms) (max_accel_ ms) (starting_duration_ ms)
     (state_ ms) (fault_reason_ ms) (last_mcu_status_ ms)
     (last_non_precharge_time_ ms) x (transition_to_moving_time_ ms)
     (encoders_monitor_ ms) (accel_limiters_ ms).

Definition set_transition_to_moving_time (x : ros.Time) (ms : t) : t :=
  mk (width_ ms) (radius_ ms) (max_accel_ ms) (starting_duration_ ms)
     (state_ ms) (fault_reason_ ms) (last_mcu_status_ ms)
     (last_non_precharge_time_ ms) (last_commanded_movement_time_ ms) x
     (encoders_monitor_ ms) (accel_limiters_ ms).

Definition set_encoders_monitor (em : EncodersMonitor.t) (ms : t) : t :=
  mk (width_ ms) (radius_ ms) (max_accel_ ms) (starting_duration_ ms)
     (state_ ms) (fault_reason_ ms) (last_mcu_status_ ms)
     (last_non_precharge_time_ ms) (last_commanded_movement_time_ ms)
     (transition_to_moving_time_ ms) em (accel_limiters_ ms).

Definition set_accel_limiters (ls : list DriveChangeLimiter.t) (ms : t) : t :=
  mk (width_ ms) (radius_ ms) (max_accel_ ms) (starting_duration_ ms)
     (state_ ms) (fault_reason_ ms) (last_mcu_status_ ms)
     (last_non_precharge_time_ ms) (last_commanded_movement_time_ ms)
     (transition_to_moving_time_ ms) (encoders_monitor_ ms) ls.

Definition precharge_reason : string :=
  "Precharge persisted for more than four seconds.".
Definition encoder_reason : string := "Encoder failure detected.".

(** [setFault] publishes an estop assertion at once, then records the
    state and the reason. *)
Definition setFault (reason : string) (ms : t) : t * list published :=
  (set_fault_reason reason (set_state Fault ms), [pub_estop true]).

(** What the exit guard of [PendingStopped] reads of the node. *)
Definition guard_view (ms : t) : option RawStatus * ros.Time * option Drive :=
  (last_mcu_status_ ms, last_commanded_movement_time_ ms,
   EncodersMonitor.last_received_encoders_ (encoders_monitor_ ms)).

(** What the precharge check reads of the node. *)
Definition precharge_view (ms : t) : option RawStatus * ros.Time :=
  (last_mcu_status_ ms, last_non_precharge_time_ ms).

(** The parameters of the node and the deadline of the ramp. *)
Definition config_view (ms : t) : Q * Q * Q * ros.Duration * ros.Time :=
  (width_ ms, radius_ ms, max_accel_ ms, starting_duration_ ms,
   transition_to_moving_time_ ms).

(** What a cycle leaves alone once its precharge check has run. *)
Definition cycle_frame (ms : t)
  : option RawStatus * ros.Time * list DriveChangeLimiter.t :=
  (precharge_view ms, accel_limiters_ ms).

(** The readings of the clock in one run of [watchdogCallback], one for
    each call of [ros::Time::now()], in the order of the source: the two
    ages inside [EncodersMonitor::ok], the test for a fresh command and the
    deadline of the ramp in the [Stopped] block, the test of the deadline
    and the test for a lapsed command in the [Starting] block, the test
    for a lapsed command in the [Moving] block, and the exit guard of the
    [PendingStopped] block. *)
Record readings : Type := mkReadings {
  at_encoders_age : ros.Time;
  at_drive_age : ros.Time;
  at_start_request : ros.Time;
  at_start_deadline : ros.Time;
  at_ramp_over : ros.Time;
  at_starting_lapse : ros.Time;
  at_moving_lapse : ros.Time;
  at_pending_exit : ros.Time
}.

(** A steady clock: every reading of the run returns [now]. *)
Definition steady (now : ros.Time) : readings :=
  mkReadings now now now now now now now now.

(** The clock does not run backwards within a run. *)
Definition ordered (r : readings) : Prop :=
  at_encoders_age r <= at_drive_age r /\
  at_drive_age r <= at_start_request r /\
  at_start_request r <= at_start_deadline r /\
  at_start_deadline r <= at_ramp_over r /\
  at_ramp_over r <= at_starting_lapse r /\
  at_starting_lapse r <= at_moving_lapse r /\
  at_moving_lapse r <= at_pending_exit r.

Section Node.

(** Constants and helpers of the message package, whose definitions are
    not in the two files: the two error bits of [RawStatus], the double
    flash pattern of [Ambience] and the stationary test on [Drive]. *)
Variable ERROR_BRK_DET : Z.
Variable ERROR_ESTOP_RESET : Z.
Variable PATTERN_DFLASH : Z.
Variable isStationary : Drive -> bool.

(** An integer used as a condition: true when it is not zero. *)
Definition flag (mask bits : Z) : bool := negb (Z.land bits mask =? 0).

Definition isEstopped (ms : t) : bool :=
  match last_mcu_status_ ms with
  | Some status => flag ERROR_ESTOP_RESET (error status)
  | None => false
  end.

(** The first part of [checkFaults]: the precharge fault. *)
Definition checkPrecharge (ms : t) : t * list published :=
  match last_mcu_status_ ms with
  | Some status =>
      let ms1 :=
        if negb (flag ERROR_BRK_DET (error status))
        then set_last_non_precharge_time (status_stamp status) ms
        else ms in
      if status_stamp status - last_non_precharge_time_ ms1 >? ros.sec 4
      then setFault precharge_reason ms1
      else (ms1, [])
  | None => (ms, [])
  end.

(** The second part of [checkFaults]: the encoders fault. *)
Definition checkEncoders (ms : t) : t * list published :=
  let '(failed, em) := EncodersMonitor.detectFailedEncoder (encoders_monitor_ ms) in
  let ms1 := set_encoders_monitor em ms in
  if failed then setFault encoder_reason ms1 else (ms1, []).

Definition checkFaults (ms : t) : t * list published :=
  let '(ms1, pubs1) := checkPrecharge ms in
  let '(ms2, pubs2) := checkEncoders ms1 in
  (ms2, pubs1 ++ pubs2).

(** The five [if (state_ == ...)] blocks of [watchdogCallback], in the
    order of the source.  Each later assignment to [state_] inside a
    block overrides the earlier ones.  The [Stopped] block reads the clock
    for the age of the command and once more for the deadline; the
    [Starting] block reads it for the deadline and once more for the age
    of the command. *)
Definition stoppedBlockAt (now_request now_deadline : ros.Time) (ms : t) : t :=
  if eqb (state_ ms) Stopped then
    if (now_request - last_commanded_movement_time_ ms <? ros.msec 100)
       && negb (isEstopped ms)
    then set_transition_to_moving_time (now_deadline + starting_duration_ ms)
           (set_state Starting ms)
    else ms
  else ms.

(** The [Stopped] block with a steady clock. *)
Definition stoppedBlock (now : ros.Time) (ms : t) : t := stoppedBlockAt now now ms.

Definition startingBlockAt (now_over now_lapse : ros.Time)
    (encoders_ok motor_controllers_ok : bool)
    (ms : t) (ambience : Ambience) : t * Ambience :=
  if eqb (state_ ms) Starting then
    let ambience' :=
      mkAmbience PATTERN_DFLASH PATTERN_DFLASH PATTERN_DFLASH PATTERN_DFLASH in
    let ms1 :=
      if now_over >? transition_to_moving_time_ ms then set_state Moving ms else ms in
    let ms2 :=
      if now_lapse - last_commanded_movement_time_ ms1 >? ros.msec 100
      then set_state Stopped ms1 else ms1 in
    let ms3 :=
      if negb encoders_ok || negb motor_controllers_ok || isEstopped ms2
      then set_state PendingStopped ms2 else ms2 in
    (ms3, ambience')
  else (ms, ambience).

(** The [Starting] block with a steady clock. *)
Definition startingBlock (now : ros.Time) (encoders_ok motor_controllers_ok : bool)
    (ms : t) (ambience : Ambience) : t * Ambience :=
  startingBlockAt now now encoders_ok motor_controllers_ok ms ambience.

Definition movingBlock (now : ros.Time) (encoders_ok motor_controllers_ok : bool)
    (ms : t) : t :=
  if eqb (state_ ms) Moving then
    let ms1 :=
      if negb encoders_ok || negb motor_controllers_ok
      then set_state PendingStopped ms else ms in
    if now - last_commanded_movement_time_ ms1 >? ros.sec 3
    then set_state Stopped ms1 else ms1
  else ms.

(** The guard of the exit from [PendingStopped]. *)
Definition pendingExit (now : ros.Time) (ms : t) : bool :=
  negb (EncodersMonitor.moving isStationary (encoders_monitor_ ms))
  && (now - last_commanded_movement_time_ ms >? ros.sec 1)
  && isEstopped ms.

Definition pendingStoppedBlock (now : ros.Time) (ms : t) (estop : bool) : t * bool :=
  if eqb (state_ ms) PendingStopped then
    if pendingExit now ms then (set_state Stopped ms, true) else (ms, true)
  else (ms, estop).

Definition faultBlock (ms : t) (estop : bool) : bool :=
  if eqb (state_ ms) Fault then true else estop.

(** The cycle up to the [PendingStopped] block: fault check, the two
    health verdicts, and the blocks for [Stopped], [Starting] and
    [Moving].  [motor_controllers_ok] is the verdict of
    [MotorsMonitor::ok()], a collaborator outside the two files. *)
Definition beforePendingAt (r : readings) (motor_controllers_ok : bool) (ms : t)
  : t * Ambience * list published :=
  let '(ms1, pubs) := checkFaults ms in
  let '(encoders_ok, em) :=
    EncodersMonitor.okAt (at_encoders_age r) (at_drive_age r) (encoders_monitor_ ms1) in
  let ms2 := set_encoders_monitor em ms1 in
  let ms3 := stoppedBlockAt (at_start_request r) (at_start_deadline r) ms2 in
  let '(ms4, ambience) :=
    startingBlockAt (at_ramp_over r) (at_starting_lapse r)
      encoders_ok motor_controllers_ok ms3 Ambience0 in
  let ms5 := movingBlock (at_moving_lapse r) encoders_ok motor_controllers_ok ms4 in
  (ms5, ambience, pubs).

(** The same with a steady clock. *)
Definition beforePending (now : ros.Time) (motor_controllers_ok : bool) (ms : t)
  : t * Ambience * list published :=
  beforePendingAt (steady now) motor_controllers_ok ms.

(** One watchdog cycle: the new node, the ambience and the estop datum
    published at its end, and the messages published on the way. *)
Definition watchdogCycleAt (r : readings) (motor_controllers_ok : bool) (ms : t)
  : t * Ambience * bool * list published :=
  let '(ms5, ambience, pubs) := beforePendingAt r motor_controllers_ok ms in
  let '(ms6, estop) := pendingStoppedBlock (at_pending_exit r) ms5 false in
  let estop' := faultBlock ms6 estop in
  (ms6, ambience, estop', pubs).

(** One watchdog cycle with a steady clock. *)
Definition watchdogCycle (now : ros.Time) (motor_controllers_ok : bool) (ms : t)
  : t * Ambience * bool * list published :=
  watchdogCycleAt (steady now) motor_controllers_ok ms.

(** [watchdogCallback]: the two messages of the cycle are published at
    its end, after those of the fault check. *)
Definition watchdogCallbackAt (r : readings) (motor_controllers_ok : bool) (ms : t)
  : t * list published :=
  let '(ms', ambience, estop, pubs) := watchdogCycleAt r motor_controllers_ok ms in
  (ms', pubs ++ [pub_ambience ambience; pub_estop estop]).

(** [watchdogCallback] with a steady clock. *)
Definition watchdogCallback (now : ros.Time) (motor_controllers_ok : bool) (ms : t)
  : t * list published :=
  watchdogCallbackAt (steady now) motor_controllers_ok ms.

Definition estopCallback (data : bool) (ms : t) : t * list published :=
  if data then
    (if eqb (state_ ms) Fault then ms else set_state PendingStopped ms,
     [pub_estop data])
  else (ms, []).

(** The loop over the four limiters: each writes its own field of
    [drive_safe] and keeps its new state. *)
Fixpoint applyLimiters (now : ros.Time) (drive_commanded drive_safe : Drive)
    (ls : list DriveChangeLimiter.t) : Drive * list DriveChangeLimiter.t :=
  match ls with
  | [] => (drive_safe, [])
  | l :: ls' =>
      let '(drive_safe', l') :=
        DriveChangeLimiter.apply now drive_commanded drive_safe l in
      let '(drive_safe'', ls'') :=
        applyLimiters now drive_commanded drive_safe' ls' in
      (drive_safe'', l' :: ls'')
  end.

Definition driveCallback (now : ros.Time) (drive_commanded : Drive) (ms : t)
  : t * list published :=
  let ms1 :=
    if negb (isStationary drive_commanded)
    then set_last_commanded_movement_time (stamp drive_commanded) ms
    else ms in
  let drive_safe := mkDrive (stamp drive_commanded) 0 0 0 0 in
  if eqb (state_ ms1) Moving then
    let '(drive_safe', ls) :=
      applyLimiters now drive_commanded drive_safe (accel_limiters_ ms1) in
    (set_accel_limiters ls ms1, [pub_safe_drive drive_safe'])
  else (ms1, [pub_safe_drive drive_safe]).

Definition mcuStatusCallback (status : RawStatus) (ms : t) : t :=
  set_last_mcu_status status ms.

(** The state at the end of a cycle, the state with which the cycle
    reaches the [PendingStopped] block, the estop datum published at the
    end, and the verdict of the encoders monitor inside the cycle. *)
Definition cycle_end (now : ros.Time) (motor_controllers_ok : bool) (ms : t) : t :=
  fst (watchdogCallback now motor_controllers_ok ms).

Definition cycle_reaches_pending (now : ros.Time) (motor_controllers_ok : bool)
    (ms : t) : t :=
  fst (fst (beforePending now motor_controllers_ok ms)).

Definition cycle_estop (now : ros.Time) (motor_controllers_ok : bool) (ms : t)
  : bool :=
  snd (fst (watchdogCycle now motor_controllers_ok ms)).

Definition cycle_encoders_ok (now : ros.Time) (ms : t) : bool :=
  fst (EncodersMonitor.ok now (encoders_monitor_ (fst (checkFaults ms)))).

(** The same of a cycle with the readings [r]. *)
Definition cycle_endAt (r : readings) (motor_controllers_ok : bool) (ms : t) : t :=
  fst (watchdogCallbackAt r motor_controllers_ok ms).

Definition cycle_estopAt (r : readings) (motor_controllers_ok : bool) (ms : t)
  : bool :=
  snd (fst (watchdogCycleAt r motor_controllers_ok ms)).

Definition cycle_encoders_okAt (r : readings) (ms : t) : bool :=
  fst (EncodersMonitor.okAt (at_encoders_age r) (at_drive_age r)
         (encoders_monitor_ (fst (checkFaults ms)))).

(** A fault fires in a cycle when its fault check leaves the node in
    [Fault]. *)
Definition fault_fires (ms : t) : bool := eqb (state_ (fst (checkFaults ms))) Fault.

(** Everything that reaches the node: the timer, the four subscriptions
    of the node and the two of its encoders monitor. *)
Inductive call : Type :=
| call_watchdogCallback (now : ros.Time) (motor_controllers_ok : bool)
| call_driveCallback (now : ros.Time) (drive_commanded : Drive)
| call_estopCallback (data : bool)
| call_mcuStatusCallback (status : RawStatus)
| call_monitor_encodersCallback (encoders : Drive)
| call_monitor_driveCallback (drive : Drive).

Definition step (ms : t) (c : call) : t :=
  match c with
  | call_watchdogCallback now mok => fst (watchdogCallback now mok ms)
  | call_driveCallback now d => fst (driveCallback now d ms)
  | call_estopCallback data => fst (estopCallback data ms)
  | call_mcuStatusCallback status => mcuStatusCallback status ms
  | call_monitor_encodersCallback e =>
      set_encoders_monitor
        (EncodersMonitor.encodersCallback e (encoders_monitor_ ms)) ms
  | call_monitor_driveCallback d =>
      set_encoders_monitor
        (EncodersMonitor.driveCallback d (encoders_monitor_ ms)) ms
  end.

Definition run (ms : t) (cs : list call) : t := fold_left step cs ms.

Definition is_mcuStatus (c : call) : bool :=
  match c with call_mcuStatusCallback _ => true | _ => false end.

Definition is_watchdog (c : call) : bool :=
  match c with call_watchdogCallback _ _ => true | _ => false end.

(** The ambience published at the end of a cycle. *)
Definition cycle_ambience (now : ros.Time) (motor_controllers_ok : bool) (ms : t)
  : Ambience :=
  snd (fst (fst (watchdogCycle now motor_controllers_ok ms))).

Definition cycle_ambienceAt (r : readings) (motor_controllers_ok : bool) (ms : t)
  : Ambience :=
  snd (fst (fst (watchdogCycleAt r motor_controllers_ok ms))).

(** The guard of the way out of [Stopped]: a command to move less than a
    tenth of a second old, and the estop bit clear. *)
Definition startRequested (now : ros.Time) (ms : t) : bool :=
  (now - last_commanded_movement_time_ ms <? ros.msec 100) && negb (isEstopped ms).

(** The verdicts that let a cycle stay out of [PendingStopped] while
    [Starting]. *)
Definition healthy (encoders_ok motor_controllers_ok : bool) (ms : t) : bool :=
  encoders_ok && motor_controllers_ok && negb (isEstopped ms).

(** The statuses a trace of calls delivers. *)
Definition delivers_status (cs : list call) (status : RawStatus) : Prop :=
  In (call_mcuStatusCallback status) cs.

(** Within four seconds of a status stamped [t0] that a fault check has
    seen with the precharge bit clear: the time of the last such status is
    no older than [t0], and the status at hand is stamped between [t0] and
    four seconds later. *)
Definition precharge_settled (t0 : ros.Time) (ms : t) : Prop :=
  t0 <= last_non_precharge_time_ ms /\
  (forall status, last_mcu_status_ ms = Some status ->
                  t0 <= status_stamp status <= t0 + ros.sec 4).


End Node.

End MotionSafety.

(** ** Sample messages *)

Module Scenario.

(** All four wheels commanded to, or measured at, 1 rad/s. *)
Definition all_turning (t : ros.Time) : Drive := mkDrive t 1 1 1 1.

(** The front left encoder reads zero while the others follow. *)
Definition front_left_dead (t : ros.Time) : Drive := mkDrive t 0 1 1 1.

(** The front right encoder reads zero while the others follow. *)
Definition front_right_dead (t : ros.Time) : Drive := mkDrive t 1 0 1 1.

(** All wheels at rest. *)
Definition at_rest (t : ros.Time) : Drive := mkDrive t 0 0 0 0.

(** Readings at which the rounding of the doubles decides: a front left
    wheel creeping at [2^-60] against a command of 1 and 1.5 on the front
    wheels, and one slipping back at [127 * 2^-60] against a command to the
    front left wheel alone. *)
Definition front_left_creeping (t : ros.Time) : Drive :=
  mkDrive t (1 # 1152921504606846976) 1 1 1.
Definition front_right_pushed (t : ros.Time) : Drive := mkDrive t 1 1.5 1 1.
Definition front_left_slipping (t : ros.Time) : Drive :=
  mkDrive t (- (127 # 1152921504606846976)) 0.5 0 0.
Definition front_left_alone (t : ros.Time) : Drive :=
  mkDrive t 1 (- (127 # 1152921504606846976)) 0 0.

(** The front left wheel measured at the double nearest to 0.01. *)
Definition front_left_at_limit (t : ros.Time) : Drive :=
  mkDrive t (double.round 0.01) 1 1 1.

(** Sample values for the constants of the message package: two distinct
    error bits, a pattern code, and the stationary test at a thousandth. *)
Definition ERROR_ESTOP_RESET : Z := 1.
Definition ERROR_BRK_DET : Z := 2.
Definition PATTERN_DFLASH : Z := 1.
Definition isStationary : Drive -> bool := isStationary_eps 0.001.

(** The node of a vehicle one metre wide, with wheels of radius a quarter
    of a metre and half a metre per second squared of acceleration. *)
Definition node : MotionSafety.t := MotionSafety.new 1 0.25 0.5.

Definition run_node : MotionSafety.t -> list MotionSafety.call -> MotionSafety.t :=
  MotionSafety.run ERROR_BRK_DET ERROR_ESTOP_RESET PATTERN_DFLASH isStationary.

(** From start-up: the user presses the estop, then the controller
    reports the estop latched, two seconds in. *)
Definition pending_node : MotionSafety.t :=
  run_node node
    [ MotionSafety.call_estopCallback true;
      MotionSafety.call_mcuStatusCallback
        (mkRawStatus (ros.sec 2) ERROR_ESTOP_RESET) ].

(** From start-up: commands to turn arrive from one second to three
    seconds in, with fresh feedback at rest, and the watchdog takes the
    node through [Starting] to [Moving]. *)
Definition moving_node : MotionSafety.t :=
  run_node node
    [ MotionSafety.call_driveCallback (ros.msec 1000) (all_turning (ros.msec 1000));
      MotionSafety.call_monitor_driveCallback (at_rest (ros.msec 1000));
      MotionSafety.call_monitor_encodersCallback (at_rest (ros.msec 1000));
      MotionSafety.call_watchdogCallback (ros.msec 1050) true;
      MotionSafety.call_driveCallback (ros.msec 3000) (all_turning (ros.msec 3000));
      MotionSafety.call_monitor_driveCallback (at_rest (ros.msec 3000));
      MotionSafety.call_monitor_encodersCallback (at_rest (ros.msec 3000));
      MotionSafety.call_watchdogCallback (ros.msec 3060) true ].

(** From start-up: a command and a cycle, then the first status of the
    controller, five seconds in and with the precharge bit set, then a
    released user estop before the next cycle. *)
Definition before_first_status : list MotionSafety.call :=
  [ MotionSafety.call_driveCallback (ros.msec 1000) (at_rest (ros.msec 1000));
    MotionSafety.call_watchdogCallback (ros.msec 1050) true ].

Definition precharging : RawStatus := mkRawStatus (ros.sec 5) ERROR_BRK_DET.

Definition after_first_status : list MotionSafety.call :=
  [ MotionSafety.call_estopCallback false ].

Definition precharging_node : MotionSafety.t :=
  run_node (MotionSafety.mcuStatusCallback precharging
              (run_node node before_first_status))
           after_first_status.

(** A limiter of two radians per second squared, and three commands to
    it: rest, a jump to ten a second later, a jump to minus ten half a
    second after that. *)
(** The calls that take the node to the brink of [Moving], and the cycle
    that enters it. *)
Definition towards_moving : list MotionSafety.call :=
  [ MotionSafety.call_driveCallback (ros.msec 1000) (all_turning (ros.msec 1000));
    MotionSafety.call_monitor_driveCallback (at_rest (ros.msec 1000));
    MotionSafety.call_monitor_encodersCallback (at_rest (ros.msec 1000));
    MotionSafety.call_watchdogCallback (ros.msec 1050) true;
    MotionSafety.call_driveCallback (ros.msec 3000) (all_turning (ros.msec 3000));
    MotionSafety.call_monitor_driveCallback (at_rest (ros.msec 3000));
    MotionSafety.call_monitor_encodersCallback (at_rest (ros.msec 3000)) ].

(** Driving in reverse, with the rear right wheel turning three times as
    fast as commanded. *)
Definition reversing (t : ros.Time) : Drive := mkDrive t (-1) (-1) (-1) (-1).
Definition rear_right_racing (t : ros.Time) : Drive := mkDrive t (-1) (-1) (-1) (-3).

(** Sample wheel names. *)
Definition nameFromDriveIndex (i : Z) : string :=
  match i with
  | 0 => "front left" | 1 => "front right" | 2 => "rear left" | 3 => "rear right"
  | _ => "unknown"
  end.

Definition stat0 : diagnostic_updater.DiagnosticStatusWrapper :=
  diagnostic_updater.mkStat 0 EmptyString [].

(** The readings of a cycle during which the clock runs on, a millisecond
    from each to the next, past the tenth of a second since a command
    stamped one second in. *)
Definition racing : MotionSafety.readings :=
  MotionSafety.mkReadings (ros.msec 1096) (ros.msec 1097) (ros.msec 1099)
    (ros.msec 1100) (ros.msec 1101) (ros.msec 1102) (ros.msec 1103) (ros.msec 1104).

(** A command far above the last. *)
Definition sprint (t : ros.Time) : Drive := mkDrive t 100 100 100 100.

Definition limiter : DriveChangeLimiter.t := DriveChangeLimiter.new 2 FrontLeft.

Definition jumps : list (Q * ros.Time) :=
  [ (0%Q, ros.sec 0); (10%Q, ros.sec 1); ((-10)%Q, ros.msec 1500) ].

Import EncodersMonitor.

(** From start-up: the front left encoder is found dead one second in,
    with nothing clean seen before; the detector latches it. *)
Definition latch_front_left : list call :=
  [ call_encodersCallback (front_left_dead (ros.msec 1000));
    call_driveCallback (all_turning (ros.msec 1000));
    call_ok (ros.msec 1050) ].

(** A second later the front left encoder reads again and the front
    right one is dead. *)
Definition then_front_right_dead : list call :=
  [ call_encodersCallback (front_right_dead (ros.msec 2000));
    call_driveCallback (all_turning (ros.msec 2000));
    call_detectFailedEncoder ].

(** Or instead, a tenth of a second later, all four encoders follow the
    command. *)
Definition then_clean : list call :=
  [ call_encodersCallback (all_turning (ros.msec 1100));
    call_driveCallback (all_turning (ros.msec 1100)) ].

(** From start-up: a clean sample at one second. *)
Definition clean_start : t :=
  run init [ call_encodersCallback (all_turning (ros.msec 1000));
             call_driveCallback (all_turning (ros.msec 1000)) ].

(** The front left encoder then flickers for less than half a second. *)
Definition flicker : list call :=
  [ call_encodersCallback (front_left_dead (ros.msec 1100));
    call_detectFailedEncoder;
    call_encodersCallback (front_left_dead (ros.msec 1300));
    call_ok (ros.msec 1310);
    call_encodersCallback (front_left_dead (ros.msec 1500));
    call_detectFailedEncoder ].

End Scenario.

(** * Properties *)

(** ** Comparisons and the maximum visitor *)

Lemma Qltb_true (x y : Q) : Eigen.Qltb x y = true <-> (x < y)%Q.
Proof.
  unfold Eigen.Qltb. rewrite negb_true_iff, <- not_true_iff_false, Qle_bool_iff.
  split; [apply Qnot_le_lt | apply Qlt_not_le].
Qed.

Lemma Qltb_false (x y : Q) : Eigen.Qltb x y = false <-> (y <= x)%Q.
Proof.
  unfold Eigen.Qltb. rewrite negb_false_iff. apply Qle_bool_iff.
Qed.

(** What the visitor returns from a running maximum [res] found at [row],
    over the coefficients [v] that sit at the indices [i], [i+1], ...:
    a bound of [res] and of all of [v], which is either [res] itself, or
    the first coefficient of [v] that reaches it. *)
Lemma max_visit_spec (v : list Q) :
  forall (res : Q) (row i : nat),
    let r := Eigen.max_visit res row i v in
    (res <= fst r)%Q /\
    (forall j x, v !! j = Some x -> (x <= fst r)%Q) /\
    ((r = (res, row)) \/
     (exists j, snd r = (i + j)%nat /\ v !! j = Some (fst r) /\ (res < fst r)%Q /\
                forall j' x, (j' < j)%nat -> v !! j' = Some x -> (x < fst r)%Q)).
Proof.
  induction v as [|x v IH]; intros res row i; cbn [Eigen.max_visit].
  - cbn. split; [lra|]. split; [intros j y H; destruct j; discriminate | now left].
  - destruct (Eigen.Qltb res x) eqn:E.
    + apply Qltb_true in E.
      destruct (IH x i (S i)) as (Hres & Hall & Hidx).
      split; [lra|]. split.
      * intros [|j] y Hj; cbn in Hj; [injection Hj as <-; exact Hres | eauto].
      * right. destruct Hidx as [Heq | (j & Hk & Hj & Hlt & Hfirst)].
        -- exists 0%nat. rewrite Heq. cbn. repeat split; [lia | exact E |].
           intros j' y Hj'. lia.
        -- exists (S j). repeat split; [lia | exact Hj | lra |].
           intros [|j'] y Hj' Hy; cbn in Hy; [injection Hy as <-; lra |].
           apply (Hfirst j'); [lia | exact Hy].
    + apply Qltb_false in E.
      destruct (IH res row (S i)) as (Hres & Hall & Hidx).
      split; [exact Hres|]. split.
      * intros [|j] y Hj; cbn in Hj; [injection Hj as <-; lra | eauto].
      * destruct Hidx as [Heq | (j & Hk & Hj & Hlt & Hfirst)]; [now left | right].
        exists (S j). repeat split; [lia | exact Hj | exact Hlt |].
        intros [|j'] y Hj' Hy; cbn in Hy; [injection Hy as <-; lra |].
        apply (Hfirst j'); [lia | exact Hy].
Qed.

(** [maxCoeff] on a vector that is not empty: the value returned is the
    coefficient at the index returned, it bounds every coefficient, and it
    is strictly above the coefficients before that index. *)
Lemma maxCoeff_spec (v : list Q) :
  v <> [] ->
  let r := Eigen.maxCoeff v in
  v !! snd r = Some (fst r) /\
  (forall j x, v !! j = Some x -> (x <= fst r)%Q) /\
  (forall j x, (j < snd r)%nat -> v !! j = Some x -> (x < fst r)%Q).
Proof.
  destruct v as [|x v]; [congruence | intros _].
  cbn [Eigen.maxCoeff].
  destruct (max_visit_spec v x 0%nat 1%nat) as (Hres & Hall & Hidx).
  destruct Hidx as [Heq | (j & Hk & Hj & Hlt & Hfirst)].
  - rewrite Heq in *. cbn in *. repeat split.
    + intros [|j] y Hj; cbn in Hj; [injection Hj as <-; lra | eauto].
    + intros j y Hj. lia.
  - cbn zeta. rewrite Hk. cbn. repeat split.
    + exact Hj.
    + intros [|j'] y Hy; cbn in Hy; [injection Hy as <-; lra | eauto].
    + intros [|j'] y Hj' Hy; cbn in Hy; [injection Hy as <-; lra |].
      apply (Hfirst j'); [lia | exact Hy].
Qed.

(** ** Rounding *)

(** Rounding looks at the value of a rational, not at the fraction that
    denotes it. *)
Lemma round_proper (x y : Q) : (x == y)%Q -> double.round x = double.round y.
Proof. intros H. unfold double.round. now rewrite (Qred_complete x y H). Qed.

Lemma sub_proper (a a' b b' : Q) :
  (a == a')%Q -> (b == b')%Q -> double.sub a b = double.sub a' b'.
Proof. intros Ha Hb. apply round_proper. now rewrite Ha, Hb. Qed.


(** The nearest integer is within a half, and even at a tie. *)
Lemma nearest_even_near (num den : Z) :
  0 < den -> 2 * Z.abs (num - double.nearest_even num den * den) <= den.
Proof.
  intros Hden. unfold double.nearest_even.
  pose proof (Z.div_mod num den ltac:(lia)) as Hdm.
  pose proof (Z.mod_pos_bound num den Hden) as Hr.
  destruct (Z.compare_spec (2 * (num mod den)) den); try destruct (Z.even _); nia.
Qed.

Lemma nearest_even_tie (num den : Z) :
  0 < den -> 2 * Z.abs (num - double.nearest_even num den * den) = den ->
  Z.even (double.nearest_even num den) = true.
Proof.
  intros Hden. unfold double.nearest_even.
  pose proof (Z.div_mod num den ltac:(lia)) as Hdm.
  pose proof (Z.mod_pos_bound num den Hden) as Hr.
  destruct (Z.compare_spec (2 * (num mod den)) den) as [E|E|E].
  - destruct (Z.even (num / den)) eqn:Ev; intros _;
      [exact Ev | rewrite Z.even_add, Ev; reflexivity].
  - intros H. exfalso. nia.
  - intros H. exfalso. nia.
Qed.

Lemma nearest_even_nonneg (num den : Z) :
  0 <= num -> 0 < den -> 0 <= double.nearest_even num den.
Proof.
  intros Hn Hd. unfold double.nearest_even.
  pose proof (Z.div_pos num den Hn Hd).
  destruct (_ ?= _); try destruct (Z.even _); lia.
Qed.

(** [2^e <= n/d < 2^(e+1)], in integers. *)
Lemma ilog2_spec (n d : positive) :
  let e := double.ilog2 n d in
  (0 <= e -> 2 ^ e * Zpos d <= Zpos n < 2 ^ (e + 1) * Zpos d) /\
  (e < 0 -> Zpos d <= Zpos n * 2 ^ (- e) /\ Zpos n * 2 ^ (- e - 1) < Zpos d).
Proof.
  cbv zeta. unfold double.ilog2.
  pose proof (Z.log2_spec (Zpos n) ltac:(lia)) as [Hn1 Hn2].
  pose proof (Z.log2_spec (Zpos d) ltac:(lia)) as [Hd1 Hd2].
  pose proof (Z.log2_nonneg (Zpos n)) as Hln.
  pose proof (Z.log2_nonneg (Zpos d)) as Hld.
  set (ln := Z.log2 (Zpos n)) in *. set (ld := Z.log2 (Zpos d)) in *.
  rewrite <- Z.add_1_r in Hn2, Hd2.
  destruct (0 <=? ln - ld) eqn:Esign.
  - apply Z.leb_le in Esign.
    assert (Hsplit : 2 ^ ln = 2 ^ (ln - ld) * 2 ^ ld)
      by (rewrite <- Z.pow_add_r by lia; f_equal; lia).
    assert (Hup : 2 ^ (ln - ld + 1) = 2 * 2 ^ (ln - ld))
      by (rewrite Z.pow_add_r by lia; lia).
    assert (Hp : 0 < 2 ^ (ln - ld)) by (apply Z.pow_pos_nonneg; lia).
    rewrite Z.pow_add_r in Hn2, Hd2 by lia. change (2 ^ 1) with 2 in *.
    destruct (2 ^ (ln - ld) * Zpos d <=? Zpos n) eqn:Er.
    + apply Z.leb_le in Er. split; [intros _|lia]. rewrite Hup. nia.
    + apply Z.leb_gt in Er.
      destruct (Z.eq_dec (ln - ld) 0) as [E0|E0].
      * rewrite E0 in *. cbn in Er |- *. split; [lia|]. intros _.
        change (- (0 - 1)) with 1. change (2 ^ 1) with 2. cbn. nia.
      * split; [intros _|lia].
        replace (ln - ld - 1 + 1) with (ln - ld) by lia.
        assert (Hdn : 2 ^ (ln - ld) = 2 * 2 ^ (ln - ld - 1)).
        { replace (ln - ld) with (ln - ld - 1 + 1) at 1 by lia.
          rewrite Z.pow_add_r by lia. lia. }
        nia.
  - apply Z.leb_gt in Esign.
    assert (Hsplit : 2 ^ ld = 2 ^ (- (ln - ld)) * 2 ^ ln)
      by (rewrite <- Z.pow_add_r by lia; f_equal; lia).
    assert (Hp : 0 < 2 ^ (- (ln - ld))) by (apply Z.pow_pos_nonneg; lia).
    rewrite Z.pow_add_r in Hn2, Hd2 by lia. change (2 ^ 1) with 2 in *.
    destruct (Zpos d <=? Zpos n * 2 ^ (- (ln - ld))) eqn:Er.
    + apply Z.leb_le in Er. split; [lia|]. intros _. split; [exact Er|].
      assert (Hdn : 2 ^ (- (ln - ld)) = 2 * 2 ^ (- (ln - ld) - 1)).
      { replace (- (ln - ld)) with (- (ln - ld) - 1 + 1) at 1 by lia.
        rewrite Z.pow_add_r by lia. lia. }
      nia.
    + apply Z.leb_gt in Er. split; [lia|]. intros _.
      replace (- (ln - ld - 1)) with (- (ln - ld) + 1) by lia.
      replace (- (ln - ld) + 1 - 1) with (- (ln - ld)) by lia.
      rewrite Z.pow_add_r by lia. change (2 ^ 1) with 2. split; [nia | exact Er].
Qed.

Lemma two_power_nonneg (q : Z) : 0 <= q -> (2 ^ q == inject_Z (2 ^ q))%Q.
Proof. intros H. symmetry. exact (Zpower_Qpower 2 q H). Qed.

Lemma two_power_neg (q : Z) : q < 0 -> (2 ^ q == 1 # Z.to_pos (2 ^ (- q)))%Q.
Proof.
  intros H. replace q with (- - q) at 1 by lia.
  rewrite Qpower_opp, (two_power_nonneg (- q)) by lia.
  assert (Hp : 0 < 2 ^ (- q)) by (apply Z.pow_pos_nonneg; lia).
  destruct (2 ^ (- q)) as [|p|p] eqn:E; try lia.
  reflexivity.
Qed.

Lemma round_pos_nearest (n d : positive) :
  let u := (2 ^ double.spacing n d)%Q in
  exists k : Z,
    (double.round_pos n d == inject_Z k * u)%Q /\
    (Qabs (double.round_pos n d - (Zpos n # d)) <= u / 2)%Q /\
    ((Qabs (double.round_pos n d - (Zpos n # d)) == u / 2)%Q -> Z.even k = true).
Proof.
  intros u. unfold double.round_pos.
  set (q := double.spacing n d) in *. cbv zeta.
  destruct (0 <=? q) eqn:Eq.
  - apply Z.leb_le in Eq.
    assert (Hu : (u == inject_Z (2 ^ q))%Q) by exact (two_power_nonneg q Eq).
    clearbody u.
    assert (Hp : 0 < 2 ^ q) by (apply Z.pow_pos_nonneg; lia).
    set (P := 2 ^ q) in *.
    set (k := double.nearest_even (Zpos n) (Zpos d * P)).
    pose proof (nearest_even_near (Zpos n) (Zpos d * P) ltac:(nia)) as Hnear.
    pose proof (nearest_even_tie (Zpos n) (Zpos d * P) ltac:(nia)) as Htie.
    fold k in Hnear, Htie.
    exists k. rewrite Hu. split; [now rewrite inject_Z_mult|].
    assert (Hle : forall x : Q, (x == inject_Z (k * P) - (Zpos n # d))%Q ->
              (Qabs x <= inject_Z P / 2)%Q /\
              ((Qabs x == inject_Z P / 2)%Q -> 2 * Z.abs (Zpos n - k * (Zpos d * P)) = Zpos d * P)).
    { intros x Hx. rewrite Hx. split.
      - apply Qabs_Qle_condition.
        unfold Qle, Qminus, Qplus, Qopp, Qdiv, Qmult, Qinv, inject_Z. cbn [Qnum Qden].
        split; nia.
      - intros Heq.
        destruct (Z.le_gt_cases (Zpos n) (k * (Zpos d * P))) as [Hs|Hs].
        + rewrite Qabs_pos in Heq.
          2:{ unfold Qle, Qminus, Qplus, Qopp, inject_Z. cbn [Qnum Qden]. nia. }
          unfold Qeq, Qminus, Qplus, Qopp, Qdiv, Qmult, Qinv, inject_Z in Heq.
          cbn [Qnum Qden] in Heq. nia.
        + rewrite Qabs_neg in Heq.
          2:{ unfold Qle, Qminus, Qplus, Qopp, inject_Z. cbn [Qnum Qden]. nia. }
          unfold Qeq, Qminus, Qplus, Qopp, Qdiv, Qmult, Qinv, inject_Z in Heq.
          cbn [Qnum Qden] in Heq. nia. }
    destruct (Hle _ (Qeq_refl _)) as [H1 H2].
    split; [exact H1|]. intros H. apply Htie, H2, H.
  - apply Z.leb_gt in Eq.
    assert (Hu : (u == 1 # Z.to_pos (2 ^ (- q)))%Q) by exact (two_power_neg q Eq).
    clearbody u.
    assert (Hp : 0 < 2 ^ (- q)) by (apply Z.pow_pos_nonneg; lia).
    destruct (2 ^ (- q)) as [|P|P] eqn:EP; try lia. cbn [Z.to_pos] in *.
    set (k := double.nearest_even (Zpos n * Zpos P) (Zpos d)).
    pose proof (nearest_even_near (Zpos n * Zpos P) (Zpos d) ltac:(lia)) as Hnear.
    pose proof (nearest_even_tie (Zpos n * Zpos P) (Zpos d) ltac:(lia)) as Htie.
    fold k in Hnear, Htie.
    exists k. rewrite Hu, Qred_correct.
    split.
    { unfold Qeq, Qmult, inject_Z. cbn [Qnum Qden]. lia. }
    assert (Hle : (Qabs ((k # P) - (Zpos n # d)) <= (1 # P) / 2)%Q /\
              ((Qabs ((k # P) - (Zpos n # d)) == (1 # P) / 2)%Q ->
               2 * Z.abs (Zpos n * Zpos P - k * Zpos d) = Zpos d)).
    { split.
      - apply Qabs_Qle_condition.
        unfold Qle, Qminus, Qplus, Qopp, Qdiv, Qmult, Qinv. cbn [Qnum Qden].
        rewrite ?Pos2Z.inj_mul. split; nia.
      - intros Heq.
        destruct (Z.le_gt_cases (Zpos n * Zpos P) (k * Zpos d)) as [Hs|Hs].
        + rewrite Qabs_pos in Heq.
          2:{ unfold Qle, Qminus, Qplus, Qopp. cbn [Qnum Qden]. nia. }
          unfold Qeq, Qminus, Qplus, Qopp, Qdiv, Qmult, Qinv in Heq.
          cbn [Qnum Qden] in Heq. rewrite ?Pos2Z.inj_mul in Heq. nia.
        + rewrite Qabs_neg in Heq.
          2:{ unfold Qle, Qminus, Qplus, Qopp. cbn [Qnum Qden]. nia. }
          unfold Qeq, Qminus, Qplus, Qopp, Qdiv, Qmult, Qinv in Heq.
          cbn [Qnum Qden] in Heq. rewrite ?Pos2Z.inj_mul in Heq. nia. }
    destruct Hle as [H1 H2]. split; [exact H1|]. intros H. apply Htie, H2, H.
Qed.

(** [2^e <= n/d < 2^(e+1)], in rationals. *)
Lemma ilog2_bounds (n d : positive) :
  (2 ^ double.ilog2 n d <= Zpos n # d)%Q /\
  (Zpos n # d < 2 ^ (double.ilog2 n d + 1))%Q.
Proof.
  destruct (ilog2_spec n d) as [Hpos Hneg]. cbv zeta in Hpos, Hneg.
  set (e := double.ilog2 n d) in *.
  destruct (Z.le_gt_cases 0 e) as [He|He].
  - destruct (Hpos He) as [H1 H2].
    rewrite (two_power_nonneg e), (two_power_nonneg (e + 1)) by lia.
    unfold Qle, Qlt, inject_Z. cbn [Qnum Qden]. split; lia.
  - destruct (Hneg He) as [H1 H2].
    rewrite (two_power_neg e He).
    assert (Hp : 0 < 2 ^ (- e)) by (apply Z.pow_pos_nonneg; lia).
    split.
    + destruct (2 ^ (- e)) as [|P|P] eqn:EP; try lia. cbn [Z.to_pos].
      unfold Qle. cbn [Qnum Qden]. lia.
    + destruct (Z.eq_dec e (-1)) as [E1|E1].
      * rewrite E1 in *. change (Zpos n * 1 < Zpos d) in H2.
        change (Zpos n # d < 1)%Q. unfold Qlt. cbn [Qnum Qden]. lia.
      * rewrite (two_power_neg (e + 1)) by lia.
        replace (- (e + 1)) with (- e - 1) by lia.
        assert (Hp' : 0 < 2 ^ (- e - 1)) by (apply Z.pow_pos_nonneg; lia).
        destruct (2 ^ (- e - 1)) as [|P|P] eqn:EP; try lia. cbn [Z.to_pos].
        unfold Qlt. cbn [Qnum Qden]. lia.
Qed.

(** Rounding is odd: [round (- x)] is [- round x]. *)
Lemma round_opp (x : Q) : (double.round (- x) == - double.round x)%Q.
Proof.
  unfold double.round. rewrite Qred_opp.
  destruct (Qred x) as [[|n|n] d]; cbn [Qnum Qden Qopp Z.opp]; try reflexivity.
  now rewrite Qopp_involutive.
Qed.

(** Rounding a positive rational [x], with [2^e <= x < 2^(e+1)]: the
    result is a multiple [k] of the spacing [u] of the doubles there, it is
    no further from [x] than half the spacing, and [k] is even when [x] is
    half way between two multiples. *)
Theorem round_to_nearest_even (x : Q) :
  (0 < x)%Q ->
  exists e k : Z,
    (2 ^ e <= x < 2 ^ (e + 1))%Q /\
    let u := (2 ^ (Z.max e (-1022) - 52))%Q in
    (double.round x == inject_Z k * u)%Q /\
    (Qabs (double.round x - x) <= u / 2)%Q /\
    ((Qabs (double.round x - x) == u / 2)%Q -> Z.even k = true).
Proof.
  intros Hx. unfold double.round.
  pose proof (Qred_correct x) as Hred.
  destruct (Qred x) as [[|n|n] d]; cbn [Qnum Qden].
  - exfalso. rewrite <- Hred in Hx. unfold Qlt in Hx. cbn in Hx. lia.
  - destruct (round_pos_nearest n d) as (k & H1 & H2 & H3).
    exists (double.ilog2 n d), k. rewrite <- Hred.
    split; [exact (ilog2_bounds n d)|].
    split; [exact H1|]. split; [exact H2 | exact H3].
  - exfalso. rewrite <- Hred in Hx. unfold Qlt in Hx. cbn in Hx. lia.
Qed.

Example round_a_hundredth :
  double.round 0.01 = (5764607523034235 # 576460752303423488)%Q.
Proof. reflexivity. Qed.

Example round_tie_to_even :
  double.round (1 + (1 # 9007199254740992)) = 1%Q /\
  double.round (1 + (3 # 9007199254740992)) = (1 + (1 # 2251799813685248))%Q.
Proof. split; reflexivity. Qed.

Example round_a_third :
  double.round (1 # 3) = (6004799503160661 # 18014398509481984)%Q.
Proof. reflexivity. Qed.

(** ** The failed-encoder candidate *)

Section Candidate.

Import EncodersMonitor.

Variables encoders drive : Drive.

Let measured := vectorFromDriveMsg encoders.
Let e := Eigen.cwiseAbs (Eigen.minus measured (vectorFromDriveMsg drive)).
Let f := wheel_error encoders drive.

Lemma error_lookup (j : nat) : (j < 4)%nat -> e !! j = Some (f j).
Proof.
  intros Hj. do 4 (destruct j as [|j]; [reflexivity|]). lia.
Qed.

Lemma error_lookup_inv (j : nat) (x : Q) :
  e !! j = Some x -> (j < 4)%nat /\ x = f j.
Proof.
  intros H. assert (Hj : (j < 4)%nat) by (apply lookup_lt_Some in H; exact H).
  split; [exact Hj|]. rewrite (error_lookup j Hj) in H. congruence.
Qed.

Lemma error_nonneg (j : nat) : (0 <= f j)%Q.
Proof. apply Qabs_nonneg. Qed.

Lemma error_nonempty : e <> [].
Proof. discriminate. Qed.

(** The index that [maxCoeff] reports is the first index of the largest
    error, and the value it reports is that error. *)
Lemma candidate_first_argmax :
  first_argmax 4 f (snd (Eigen.maxCoeff e)) /\
  fst (Eigen.maxCoeff e) = f (snd (Eigen.maxCoeff e)).
Proof.
  destruct (maxCoeff_spec e error_nonempty) as (Hk & Hall & Hfirst).
  destruct (error_lookup_inv _ _ Hk) as [Hlt Heq].
  split; [|exact Heq]. rewrite Heq in Hall, Hfirst. repeat split.
  - exact Hlt.
  - intros j Hj. apply (Hall j). now apply error_lookup.
  - intros j Hj. apply (Hfirst j); [exact Hj|]. apply error_lookup. lia.
Qed.

Lemma first_argmax_unique (M M' : nat) :
  first_argmax 4 f M -> first_argmax 4 f M' -> M = M'.
Proof.
  intros (HM & HallM & HfM) (HM' & HallM' & HfM').
  destruct (Nat.lt_trichotomy M M') as [Hlt | [Heq | Hgt]]; [|exact Heq|].
  - specialize (HfM' M Hlt). specialize (HallM M' HM'). lra.
  - specialize (HfM M' Hgt). specialize (HallM' M HM). lra.
Qed.

(** With the largest error zeroed, the new maximum is the second-largest
    error: it bounds the error of every other wheel and, the errors being
    non-negative, it is the error of one of them (up to equality of
    rationals). *)
Lemma second_largest (k : nat) :
  (k < 4)%nat ->
  let m2 := fst (Eigen.maxCoeff (<[k := 0%Q]> e)) in
  (forall j, (j < 4)%nat -> j <> k -> (f j <= m2)%Q) /\
  (exists j, (j < 4)%nat /\ j <> k /\ (m2 == f j)%Q).
Proof.
  intros Hk m2.
  assert (Hne : <[k := 0%Q]> e <> []).
  { intros H. apply (f_equal length) in H. rewrite length_insert in H. discriminate. }
  destruct (maxCoeff_spec _ Hne) as (Hk2 & Hall & _).
  fold m2 in Hk2, Hall.
  assert (Hbound : forall j, (j < 4)%nat -> j <> k -> (f j <= m2)%Q).
  { intros j Hj Hjk. apply (Hall j).
    rewrite list_lookup_insert_ne by congruence. now apply error_lookup. }
  split; [exact Hbound|].
  set (k2 := snd (Eigen.maxCoeff (<[k := 0%Q]> e))) in *.
  destruct (Nat.eq_dec k2 k) as [Heq | Hneq].
  - rewrite Heq, list_lookup_insert_eq in Hk2 by exact Hk.
    injection Hk2 as Hm2.
    set (j := if Nat.eq_dec k 0%nat then 1%nat else 0%nat).
    assert (Hj : (j < 4)%nat /\ j <> k)
      by (unfold j; destruct (Nat.eq_dec k 0%nat); lia).
    exists j. destruct Hj as [Hj Hjk]. repeat split; [exact Hj | exact Hjk |].
    specialize (Hbound j Hj Hjk). pose proof (error_nonneg j). rewrite <- Hm2 in *.
    apply Qle_antisym; assumption.
  - rewrite list_lookup_insert_ne in Hk2 by congruence.
    destruct (error_lookup_inv _ _ Hk2) as [Hlt Hm2].
    exists k2. repeat split; [exact Hlt | exact Hneq | rewrite Hm2; reflexivity].
Qed.

Variable m : EncodersMonitor.t.

Lemma detect_candidate_some (M : nat) :
  detect_candidate m encoders drive = Some M <->
  first_argmax 4 f M /\
  (Eigen.coeff measured M <= double.round 0.01)%Q /\
  exceeds_second 4 (encoder_speed_error_diff_threshold m) f M.
Proof.
  unfold detect_candidate, detectFailedEncoderCandidate.
  fold measured. fold e.
  destruct candidate_first_argmax as [Harg Hmax].
  destruct (Eigen.maxCoeff e) as [max_error k] eqn:Emax. cbn [fst snd] in *.
  destruct (second_largest k (proj1 Harg)) as [Hbound (j2 & Hj2 & Hj2k & Hm2)].
  set (m2 := fst (Eigen.maxCoeff (<[k := 0%Q]> e))) in *.
  destruct (Eigen.Qltb (double.round 0.01) (Eigen.coeff measured k)) eqn:Esmall.
  { apply Qltb_true in Esmall. split; [discriminate|].
    intros (HM & Hle & _). rewrite (first_argmax_unique _ _ HM Harg) in Hle. lra. }
  apply Qltb_false in Esmall.
  destruct (Eigen.Qltb (double.sub max_error m2) (encoder_speed_error_diff_threshold m))
    eqn:Ediff.
  { apply Qltb_true in Ediff. split; [discriminate|].
    intros (HM & _ & s & (Hs1 & j & Hj & Hjk & Hs2) & Hs).
    rewrite (first_argmax_unique _ _ HM Harg) in *.
    assert (Heq : (s == m2)%Q).
    { apply Qle_antisym.
      - rewrite Hs2. now apply Hbound.
      - rewrite Hm2. now apply Hs1. }
    rewrite (sub_proper (f k) max_error s m2) in Hs;
      [lra | rewrite Hmax; reflexivity | exact Heq]. }
  apply Qltb_false in Ediff. split.
  - intros [= <-]. split; [exact Harg|]. split; [exact Esmall|].
    exists m2. split; [split; [exact Hbound | now exists j2]|].
    now rewrite <- Hmax.
  - intros (HM & _ & _). now rewrite (first_argmax_unique _ _ HM Harg).
Qed.

End Candidate.



(** Where rounding decides.  The exact errors of the front wheels differ by
    less than a half; the computed ones by a half, and the wheel is a
    candidate. *)
Example detect_candidate_rounded_up :
  EncodersMonitor.detect_candidate EncodersMonitor.init
    (Scenario.front_left_creeping 0) (Scenario.front_right_pushed 0) = Some 0%nat.
Proof. reflexivity. Qed.

(** And the other way: the exact errors differ by more than a half, the
    computed ones by less, and there is no candidate. *)
Example detect_candidate_rounded_down :
  EncodersMonitor.detect_candidate EncodersMonitor.init
    (Scenario.front_left_slipping 0) (Scenario.front_left_alone 0) = None.
Proof. reflexivity. Qed.

(** A measured speed of exactly the double 0.01 still counts as small. *)
Example detect_candidate_at_the_limit :
  EncodersMonitor.detect_candidate EncodersMonitor.init
    (Scenario.front_left_at_limit 0) (Scenario.all_turning 0) = Some 0%nat.
Proof. reflexivity. Qed.

Example detect_candidate_front_left :
  EncodersMonitor.detect_candidate EncodersMonitor.init
    (Scenario.front_left_dead 0) (Scenario.all_turning 0) = Some 0%nat.
Proof. reflexivity. Qed.

Example detect_candidate_uniform_stall :
  EncodersMonitor.detect_candidate EncodersMonitor.init
    (Scenario.at_rest 0) (Scenario.all_turning 0) = None.
Proof. reflexivity. Qed.

Example detect_candidate_clean :
  EncodersMonitor.detect_candidate EncodersMonitor.init
    (Scenario.all_turning 0) (Scenario.all_turning 0) = None.
Proof. reflexivity. Qed.

(** ** The failure latch of the monitor *)

Section Latch.

Import EncodersMonitor.

Lemma candidate_in_range (m : t) (encoders drive : Drive) :
  (snd (detectFailedEncoderCandidate m encoders drive) < 4)%nat.
Proof.
  unfold detectFailedEncoderCandidate.
  pose proof (proj1 (proj1 (candidate_first_argmax encoders drive))) as H.
  destruct (Eigen.maxCoeff _) as [max_error k]. cbn [snd] in H.
  repeat match goal with |- context [if ?b then _ else _] => destruct b end; exact H.
Qed.

(** One call of [detectFailedEncoder], case by case. *)
Lemma detectFailedEncoder_cases (m : t) :
  (detectFailedEncoder m = (false, m)) \/
  (exists encoders drive,
      last_received_encoders_ m = Some encoders /\
      last_received_drive_ m = Some drive /\
      detect_candidate m encoders drive = None /\
      detectFailedEncoder m = (false, set_time_of_last_nonsuspect (stamp encoders) m)) \/
  (exists encoders drive k,
      last_received_encoders_ m = Some encoders /\
      last_received_drive_ m = Some drive /\
      detect_candidate m encoders drive = Some k /\
      (k < 4)%nat /\
      stamp encoders - time_of_last_nonsuspect_encoders_ m
        > encoder_fault_time_to_failure m /\
      detectFailedEncoder m = (true, set_failed_encoder (Z.of_nat k) m)).
Proof.
  unfold detectFailedEncoder, detect_candidate.
  destruct (last_received_encoders_ m) as [encoders|]; [|now left].
  destruct (last_received_drive_ m) as [drive|]; [|now left].
  pose proof (candidate_in_range m encoders drive) as Hk.
  destruct (detectFailedEncoderCandidate m encoders drive) as [[|] k] eqn:E;
    cbn [snd] in Hk.
  - destruct (Z.gtb_spec (stamp encoders - time_of_last_nonsuspect_encoders_ m)
                         (encoder_fault_time_to_failure m)) as [Hgt|Hle].
    + right; right. exists encoders, drive, k. rewrite E.
      repeat split; [exact Hk | lia].
    + now left.
  - right; left. exists encoders, drive. rewrite E. now repeat split.
Qed.

(** [ok] either leaves the monitor alone or runs the detector on it. *)
Lemma okAt_state (now_encoders now_drive : ros.Time) (m : t) :
  snd (okAt now_encoders now_drive m) = m \/
  snd (okAt now_encoders now_drive m) = snd (detectFailedEncoder m).
Proof.
  unfold okAt.
  destruct (last_received_encoders_ m) as [encoders|]; [|now left].
  destruct (age now_encoders encoders >? encoders_timeout m); [now left|].
  destruct (last_received_drive_ m) as [drive|]; [|now left].
  destruct (age now_drive drive >? encoders_timeout m); [now left|].
  right. destruct (detectFailedEncoder m) as [[|] m']; reflexivity.
Qed.

Lemma ok_state (now : ros.Time) (m : t) :
  snd (ok now m) = m \/ snd (ok now m) = snd (detectFailedEncoder m).
Proof. exact (okAt_state now now m). Qed.

Lemma detectFailedEncoder_keeps_latch (m : t) :
  0 <= failed_encoder_ m < 4 ->
  0 <= failed_encoder_ (snd (detectFailedEncoder m)) < 4.
Proof.
  intros H.
  destruct (detectFailedEncoder_cases m)
    as [-> | [(e & d & _ & _ & _ & ->) | (e & d & k & _ & _ & _ & Hk & _ & ->)]];
    cbn; lia.
Qed.

Lemma step_keeps_latch (m : t) (c : call) :
  0 <= failed_encoder_ m < 4 -> 0 <= failed_encoder_ (step m c) < 4.
Proof.
  intros H. destruct c as [e|d| |now]; cbn [step].
  - exact H.
  - exact H.
  - now apply detectFailedEncoder_keeps_latch.
  - destruct (ok_state now m) as [-> | ->];
      [exact H | now apply detectFailedEncoder_keeps_latch].
Qed.

End Latch.

(** C2, as amended.  Once [failed_encoder_] holds a wheel index, no later
    call into the monitor clears it: after every sequence of calls it still
    holds a wheel index.  (Which wheel it names is not fixed: a later
    persistent candidate stores its own index.) *)
Theorem failed_encoder_never_cleared (m : EncodersMonitor.t)
    (cs : list EncodersMonitor.call) :
  0 <= EncodersMonitor.failed_encoder_ m < 4 ->
  0 <= EncodersMonitor.failed_encoder_ (EncodersMonitor.run m cs) < 4.
Proof.
  revert m. induction cs as [|c cs IH]; intros m H; [exact H|].
  cbn. apply IH. now apply step_keeps_latch.
Qed.

Lemma failed_encoder_never_cleared_witness :
  let m := EncodersMonitor.run EncodersMonitor.init Scenario.latch_front_left in
  0 <= EncodersMonitor.failed_encoder_ m < 4 /\
  0 <= EncodersMonitor.failed_encoder_
         (EncodersMonitor.run m Scenario.then_clean) < 4.
Proof.
  intros m.
  assert (H : 0 <= EncodersMonitor.failed_encoder_ m < 4)
    by (change (EncodersMonitor.failed_encoder_ m) with 0; lia).
  split; [exact H|].
  exact (failed_encoder_never_cleared m Scenario.then_clean H).
Defined.

(** C2 with first-occurrence-wins fails: with the front left wheel
    latched, a later persistent candidate on the front right wheel
    replaces the index. *)
Lemma failed_encoder_overwritten :
  let m := EncodersMonitor.run EncodersMonitor.init Scenario.latch_front_left in
  EncodersMonitor.failed_encoder_ m = 0 /\
  EncodersMonitor.failed_encoder_
    (EncodersMonitor.run m Scenario.then_front_right_dead) = 1.
Proof. split; reflexivity. Qed.

(** C1, at the failing input.  The front left wheel has been latched; a
    tenth of a second later feedback and command are both fresh and agree.
    [ok] then answers [true], with [failed_encoder_] set before and after
    the call. *)
Example ok_true_after_latch :
  let m := EncodersMonitor.run EncodersMonitor.init
             (Scenario.latch_front_left ++ Scenario.then_clean) in
  let now := ros.msec 1150 in
  (exists encoders drive,
      EncodersMonitor.last_received_encoders_ m = Some encoders /\
      EncodersMonitor.last_received_drive_ m = Some drive /\
      EncodersMonitor.age now encoders <= EncodersMonitor.encoders_timeout m /\
      EncodersMonitor.age now drive <= EncodersMonitor.encoders_timeout m) /\
  EncodersMonitor.failed_encoder_ m = 0 /\
  EncodersMonitor.ok now m = (true, snd (EncodersMonitor.ok now m)) /\
  EncodersMonitor.failed_encoder_ (snd (EncodersMonitor.ok now m)) = 0.
Proof.
  cbv zeta. split.
  - exists (Scenario.all_turning (ros.msec 1100)), (Scenario.all_turning (ros.msec 1100)).
    repeat split; try reflexivity; vm_compute; discriminate.
  - repeat split; reflexivity.
Qed.

(** The call that latched it did answer [false]. *)
Example ok_false_when_latching :
  let m := EncodersMonitor.run EncodersMonitor.init
             [ EncodersMonitor.call_encodersCallback
                 (Scenario.front_left_dead (ros.msec 1000));
               EncodersMonitor.call_driveCallback
                 (Scenario.all_turning (ros.msec 1000)) ] in
  EncodersMonitor.failed_encoder_ m = -1 /\
  fst (EncodersMonitor.ok (ros.msec 1050) m) = false /\
  EncodersMonitor.failed_encoder_ (snd (EncodersMonitor.ok (ros.msec 1050) m)) = 0.
Proof. repeat split; reflexivity. Qed.

(** In the sound direction: whenever [ok] answers [false] with fresh
    feedback and a fresh command, the latch is set when it returns. *)
Lemma ok_false_latched (now : ros.Time) (m : EncodersMonitor.t)
    (encoders drive : Drive) :
  EncodersMonitor.last_received_encoders_ m = Some encoders ->
  EncodersMonitor.last_received_drive_ m = Some drive ->
  EncodersMonitor.age now encoders <= EncodersMonitor.encoders_timeout m ->
  EncodersMonitor.age now drive <= EncodersMonitor.encoders_timeout m ->
  fst (EncodersMonitor.ok now m) = false ->
  0 <= EncodersMonitor.failed_encoder_ (snd (EncodersMonitor.ok now m)) < 4.
Proof.
  intros He Hd Hae Had. unfold EncodersMonitor.ok, EncodersMonitor.okAt. rewrite He, Hd.
  destruct (Z.gtb_spec (EncodersMonitor.age now encoders)
                       (EncodersMonitor.encoders_timeout m)); [lia|].
  destruct (Z.gtb_spec (EncodersMonitor.age now drive)
                       (EncodersMonitor.encoders_timeout m)); [lia|].
  destruct (detectFailedEncoder_cases m)
    as [-> | [(e & d & _ & _ & _ & ->) | (e & d & k & _ & _ & _ & Hk & _ & ->)]];
    cbn; try discriminate.
  intros _. lia.
Qed.

(** ** The debounce clock *)

Section Debounce.

Import EncodersMonitor.

Variable t0 : ros.Time.
Variable ttf : ros.Duration.
Variable failed0 : Z.

Lemma detectFailedEncoder_debouncing (m : t) :
  debouncing t0 ttf failed0 m ->
  debouncing t0 ttf failed0 (snd (detectFailedEncoder m)).
Proof.
  intros (Httf & Hfailed & Hclean & Hstamp).
  destruct (detectFailedEncoder_cases m)
    as [-> | [(e & d & He & _ & _ & ->) | (e & d & k & He & _ & _ & _ & Hgt & _)]].
  - exact (conj Httf (conj Hfailed (conj Hclean Hstamp))).
  - cbn [snd]. pose proof (Hstamp e He).
    split; [exact Httf|]. split; [exact Hfailed|]. split; [cbn; lia | exact Hstamp].
  - exfalso. specialize (Hstamp e He). lia.
Qed.

Lemma step_debouncing (m : t) (c : call) :
  (forall encoders, c = call_encodersCallback encoders ->
                    t0 <= stamp encoders <= t0 + ttf) ->
  debouncing t0 ttf failed0 m ->
  debouncing t0 ttf failed0 (step m c).
Proof.
  intros Hc Hm. destruct c as [e|d| |now]; cbn [step].
  - destruct Hm as (Httf & Hfailed & Hclean & _).
    split; [exact Httf|]. split; [exact Hfailed|]. split; [exact Hclean|].
    cbn. intros ? [= <-]. now apply Hc.
  - exact Hm.
  - now apply detectFailedEncoder_debouncing.
  - destruct (ok_state now m) as [-> | ->];
      [exact Hm | now apply detectFailedEncoder_debouncing].
Qed.

Lemma run_debouncing (cs : list call) :
  forall m : t,
    (forall encoders, delivers cs encoders -> t0 <= stamp encoders <= t0 + ttf) ->
    debouncing t0 ttf failed0 m ->
    debouncing t0 ttf failed0 (run m cs).
Proof.
  unfold delivers. induction cs as [|c cs IH]; intros m Hcs Hm; [exact Hm|].
  cbn. apply IH.
  - intros e He. apply Hcs. now right.
  - apply step_debouncing; [|exact Hm].
    intros e ->. apply Hcs. now left.
Qed.

End Debounce.

(** No call of the detector reports a failure unless the feedback at hand
    shows a candidate and is stamped more than the time to failure after
    the last clean reading. *)
Lemma latch_needs_persistence (m : EncodersMonitor.t) :
  fst (EncodersMonitor.detectFailedEncoder m) = true ->
  exists encoders drive k,
    EncodersMonitor.last_received_encoders_ m = Some encoders /\
    EncodersMonitor.last_received_drive_ m = Some drive /\
    EncodersMonitor.detect_candidate m encoders drive = Some k /\
    stamp encoders - EncodersMonitor.time_of_last_nonsuspect_encoders_ m
      > EncodersMonitor.encoder_fault_time_to_failure m.
Proof.
  destruct (detectFailedEncoder_cases m)
    as [-> | [(e & d & _ & _ & _ & ->) | (e & d & k & He & Hd & Hc & _ & Hgt & _)]];
    cbn; try discriminate.
  intros _. now exists e, d, k.
Qed.

(** C8.  When feedback and command are both present and no candidate is
    detected, the update reports no failure, leaves the latch as it is and
    sets the time of the last clean reading to the stamp of the feedback.
    From there on no failure latches as long as the feedback delivered is
    stamped within the time to failure of that clean sample, whatever
    candidates it shows: a candidate has to outlast the time to failure,
    counted from the last clean sample, before it latches. *)
Theorem clean_sample_resets_debounce (m : EncodersMonitor.t) (encoders drive : Drive)
    (cs : list EncodersMonitor.call) :
  EncodersMonitor.last_received_encoders_ m = Some encoders ->
  EncodersMonitor.last_received_drive_ m = Some drive ->
  EncodersMonitor.detect_candidate m encoders drive = None ->
  0 <= EncodersMonitor.encoder_fault_time_to_failure m ->
  (forall e, EncodersMonitor.delivers cs e ->
     stamp encoders <= stamp e
       <= stamp encoders + EncodersMonitor.encoder_fault_time_to_failure m) ->
  let m' := snd (EncodersMonitor.detectFailedEncoder m) in
  fst (EncodersMonitor.detectFailedEncoder m) = false /\
  EncodersMonitor.time_of_last_nonsuspect_encoders_ m' = stamp encoders /\
  EncodersMonitor.failed_encoder_ m' = EncodersMonitor.failed_encoder_ m /\
  EncodersMonitor.failed_encoder_ (EncodersMonitor.run m' cs)
    = EncodersMonitor.failed_encoder_ m.
Proof.
  intros He Hd Hnone Httf Hcs m'.
  assert (Hstep : EncodersMonitor.detectFailedEncoder m
                  = (false, EncodersMonitor.set_time_of_last_nonsuspect (stamp encoders) m)).
  { destruct (detectFailedEncoder_cases m)
      as [E | [(e & d & He' & _ & _ & E) | (e & d & k & He' & Hd' & Hc & _)]].
    - unfold EncodersMonitor.detectFailedEncoder in *.
      unfold EncodersMonitor.detect_candidate in Hnone. rewrite He, Hd in *.
      destruct (EncodersMonitor.detectFailedEncoderCandidate m encoders drive) as [[|] k];
        [discriminate | reflexivity].
    - rewrite He in He'. injection He' as <-. exact E.
    - rewrite He in He'. rewrite Hd in Hd'. injection He' as <-. injection Hd' as <-.
      congruence. }
  subst m'. rewrite Hstep. cbn [fst snd]. repeat split.
  apply (run_debouncing (stamp encoders)
           (EncodersMonitor.encoder_fault_time_to_failure m)
           (EncodersMonitor.failed_encoder_ m) cs); [exact Hcs|].
  split; [reflexivity|]. split; [reflexivity|]. split; [cbn; lia|].
  cbn. intros e. rewrite He. intros [= <-]. lia.
Qed.

Lemma clean_sample_resets_debounce_witness :
  let m := Scenario.clean_start in
  let m' := snd (EncodersMonitor.detectFailedEncoder m) in
  fst (EncodersMonitor.detectFailedEncoder m) = false /\
  EncodersMonitor.time_of_last_nonsuspect_encoders_ m' = ros.msec 1000 /\
  EncodersMonitor.failed_encoder_ m' = -1 /\
  EncodersMonitor.failed_encoder_ (EncodersMonitor.run m' Scenario.flicker) = -1.
Proof.
  apply (clean_sample_resets_debounce Scenario.clean_start
           (Scenario.all_turning (ros.msec 1000)) (Scenario.all_turning (ros.msec 1000))
           Scenario.flicker); try reflexivity.
  - vm_compute. discriminate.
  - intros e He. unfold EncodersMonitor.delivers, Scenario.flicker in He. cbn in He.
    repeat (destruct He as [He | He]; [try discriminate He|]); try contradiction;
      injection He as <-; vm_compute; split; discriminate.
Defined.

(** ** The watchdog cycle *)

(** Case analysis on the tests and on the pairs a callback computes. *)
Ltac split_tests :=
  repeat match goal with
         | |- context [match ?p with (_, _) => _ end] => destruct p eqn:?
         | |- context [if ?b then _ else _] => destruct b eqn:?
         end.

Lemma detectFailedEncoder_feedback (m : EncodersMonitor.t) :
  EncodersMonitor.last_received_encoders_ (snd (EncodersMonitor.detectFailedEncoder m))
  = EncodersMonitor.last_received_encoders_ m.
Proof.
  destruct (detectFailedEncoder_cases m)
    as [-> | [(e & d & _ & _ & _ & ->) | (e & d & k & _ & _ & _ & _ & _ & ->)]];
    reflexivity.
Qed.

Lemma okAt_feedback (now_encoders now_drive : ros.Time) (m : EncodersMonitor.t) :
  EncodersMonitor.last_received_encoders_
    (snd (EncodersMonitor.okAt now_encoders now_drive m))
  = EncodersMonitor.last_received_encoders_ m.
Proof.
  destruct (okAt_state now_encoders now_drive m) as [-> | ->];
    [reflexivity | apply detectFailedEncoder_feedback].
Qed.

Lemma ok_feedback (now : ros.Time) (m : EncodersMonitor.t) :
  EncodersMonitor.last_received_encoders_ (snd (EncodersMonitor.ok now m))
  = EncodersMonitor.last_received_encoders_ m.
Proof. exact (okAt_feedback now now m). Qed.

Section Watchdog.

Import MotionStates MotionSafety.

Variables ERROR_BRK_DET ERROR_ESTOP_RESET PATTERN_DFLASH : Z.
Variable isStationary : Drive -> bool.

Local Abbreviation isEstopped := (isEstopped ERROR_ESTOP_RESET).
Local Abbreviation checkPrecharge := (checkPrecharge ERROR_BRK_DET).
Local Abbreviation checkFaults := (checkFaults ERROR_BRK_DET).
Local Abbreviation stoppedBlock := (stoppedBlock ERROR_ESTOP_RESET).
Local Abbreviation startingBlock := (startingBlock ERROR_ESTOP_RESET PATTERN_DFLASH).
Local Abbreviation pendingExit := (pendingExit ERROR_ESTOP_RESET isStationary).
Local Abbreviation pendingStoppedBlock := (pendingStoppedBlock ERROR_ESTOP_RESET isStationary).
Local Abbreviation beforePending := (beforePending ERROR_BRK_DET ERROR_ESTOP_RESET PATTERN_DFLASH).
Local Abbreviation watchdogCycle :=
  (watchdogCycle ERROR_BRK_DET ERROR_ESTOP_RESET PATTERN_DFLASH isStationary).
Local Abbreviation watchdogCallback :=
  (watchdogCallback ERROR_BRK_DET ERROR_ESTOP_RESET PATTERN_DFLASH isStationary).
Local Abbreviation cycle_end :=
  (cycle_end ERROR_BRK_DET ERROR_ESTOP_RESET PATTERN_DFLASH isStationary).
Local Abbreviation cycle_reaches_pending :=
  (cycle_reaches_pending ERROR_BRK_DET ERROR_ESTOP_RESET PATTERN_DFLASH).
Local Abbreviation cycle_estop :=
  (cycle_estop ERROR_BRK_DET ERROR_ESTOP_RESET PATTERN_DFLASH isStationary).
Local Abbreviation cycle_encoders_ok := (cycle_encoders_ok ERROR_BRK_DET).
Local Abbreviation fault_fires := (fault_fires ERROR_BRK_DET).

(** The cycle with a steady clock, in the blocks of the steady clock. *)
Lemma beforePending_steady (now : ros.Time) (mok : bool) (ms : MotionSafety.t) :
  beforePending now mok ms
  = let '(ms1, pubs) := checkFaults ms in
    let '(encoders_ok, em) := EncodersMonitor.ok now (encoders_monitor_ ms1) in
    let ms2 := set_encoders_monitor em ms1 in
    let ms3 := stoppedBlock now ms2 in
    let '(ms4, ambience) := startingBlock now encoders_ok mok ms3 Ambience0 in
    let ms5 := movingBlock now encoders_ok mok ms4 in
    (ms5, ambience, pubs).
Proof. reflexivity. Qed.

Lemma watchdogCycle_steady (now : ros.Time) (mok : bool) (ms : MotionSafety.t) :
  watchdogCycle now mok ms
  = let '(ms5, ambience, pubs) := beforePending now mok ms in
    let '(ms6, estop) := pendingStoppedBlock now ms5 false in
    let estop' := faultBlock ms6 estop in
    (ms6, ambience, estop', pubs).
Proof. reflexivity. Qed.

Lemma watchdogCallback_steady (now : ros.Time) (mok : bool) (ms : MotionSafety.t) :
  watchdogCallback now mok ms
  = let '(ms', ambience, estop, pubs) := watchdogCycle now mok ms in
    (ms', pubs ++ [pub_ambience ambience; pub_estop estop]).
Proof. reflexivity. Qed.

Lemma pendingExit_view (now : ros.Time) (ms ms' : MotionSafety.t) :
  guard_view ms' = guard_view ms -> pendingExit now ms' = pendingExit now ms.
Proof.
  unfold guard_view, MotionSafety.pendingExit, MotionSafety.isEstopped,
    EncodersMonitor.moving.
  intros [= -> -> ->]. reflexivity.
Qed.

Lemma checkPrecharge_view (ms : MotionSafety.t) :
  guard_view (fst (checkPrecharge ms)) = guard_view ms.
Proof.
  unfold MotionSafety.checkPrecharge, setFault.
  destruct (last_mcu_status_ ms) as [status|] eqn:E; [|reflexivity].
  split_tests; reflexivity.
Qed.

Lemma checkEncoders_view (ms : MotionSafety.t) :
  guard_view (fst (checkEncoders ms)) = guard_view ms.
Proof.
  unfold checkEncoders, setFault.
  pose proof (detectFailedEncoder_feedback (encoders_monitor_ ms)) as H.
  destruct (EncodersMonitor.detectFailedEncoder (encoders_monitor_ ms)) as [[|] em];
    cbn [snd] in H; unfold guard_view; cbn; now rewrite H.
Qed.

Lemma checkFaults_view (ms : MotionSafety.t) :
  guard_view (fst (checkFaults ms)) = guard_view ms.
Proof.
  unfold MotionSafety.checkFaults.
  pose proof (checkPrecharge_view ms) as H1.
  destruct (checkPrecharge ms) as [ms1 pubs1]. cbn [fst] in H1.
  pose proof (checkEncoders_view ms1) as H2.
  destruct (checkEncoders ms1) as [ms2 pubs2]. cbn [fst] in *. congruence.
Qed.

(** A fault check either leaves the state alone or enters [Fault]. *)
Lemma checkFaults_state (ms : MotionSafety.t) :
  state_ (fst (checkFaults ms)) = state_ ms \/ state_ (fst (checkFaults ms)) = Fault.
Proof.
  assert (Hp : state_ (fst (checkPrecharge ms)) = state_ ms
               \/ state_ (fst (checkPrecharge ms)) = Fault).
  { unfold MotionSafety.checkPrecharge, setFault.
    destruct (last_mcu_status_ ms) as [status|]; [|now left].
    split_tests; cbn; auto. }
  assert (He : forall ms1, state_ (fst (checkEncoders ms1)) = state_ ms1
                           \/ state_ (fst (checkEncoders ms1)) = Fault).
  { intros ms1. unfold checkEncoders, setFault. split_tests; cbn; auto. }
  unfold MotionSafety.checkFaults.
  destruct (checkPrecharge ms) as [ms1 pubs1]. cbn [fst] in Hp.
  specialize (He ms1). destruct (checkEncoders ms1) as [ms2 pubs2]. cbn [fst] in *.
  destruct He as [He | He]; [rewrite He; exact Hp | now right].
Qed.

Lemma fault_fires_false (ms : MotionSafety.t) :
  fault_fires ms = false -> state_ (fst (checkFaults ms)) = state_ ms.
Proof.
  unfold MotionSafety.fault_fires. intros H.
  destruct (checkFaults_state ms) as [E | E]; [exact E|].
  rewrite E in H. discriminate.
Qed.

(** The node with which a cycle enters its five blocks: the fault check
    has run and the monitor has given its verdict. *)
Lemma entryAt_view (now_encoders now_drive : ros.Time) (ms : MotionSafety.t) :
  let ms1 := fst (checkFaults ms) in
  let em := snd (EncodersMonitor.okAt now_encoders now_drive (encoders_monitor_ ms1)) in
  guard_view (set_encoders_monitor em ms1) = guard_view ms.
Proof.
  intros ms1 em. rewrite <- (checkFaults_view ms). fold ms1.
  unfold guard_view. cbn. subst em. now rewrite okAt_feedback.
Qed.

Lemma entry_view (now : ros.Time) (ms : MotionSafety.t) :
  let ms1 := fst (checkFaults ms) in
  let em := snd (EncodersMonitor.ok now (encoders_monitor_ ms1)) in
  guard_view (set_encoders_monitor em ms1) = guard_view ms.
Proof. exact (entryAt_view now now ms). Qed.

(** A cycle in which the fault check leaves [PendingStopped]: only the
    [PendingStopped] block acts. *)
Lemma cycle_from_pending (now : ros.Time) (mok : bool) (ms : MotionSafety.t) :
  state_ (fst (checkFaults ms)) = PendingStopped ->
  state_ (cycle_end now mok ms)
  = if pendingExit now ms then Stopped else PendingStopped.
Proof.
  intros Hs. pose proof (entry_view now ms) as Hv. cbv zeta in Hv.
  unfold MotionSafety.cycle_end.
  rewrite ?watchdogCallback_steady, ?watchdogCycle_steady, ?beforePending_steady.
  destruct (checkFaults ms) as [ms1 pubs]. cbn [fst] in Hs, Hv.
  destruct (EncodersMonitor.ok now (encoders_monitor_ ms1)) as [eok em].
  cbn [snd] in Hv.
  set (ms2 := set_encoders_monitor em ms1) in *.
  assert (Hs2 : state_ ms2 = PendingStopped) by exact Hs. clearbody ms2.
  apply (pendingExit_view now) in Hv.
  unfold MotionSafety.stoppedBlock, MotionSafety.stoppedBlockAt, MotionSafety.startingBlock, MotionSafety.startingBlockAt, movingBlock,
    MotionSafety.pendingStoppedBlock.
  repeat (rewrite Hs2; cbn [eqb]).
  rewrite Hv. destruct (pendingExit now ms); cbn [fst]; [reflexivity | exact Hs2].
Qed.

(** A cycle in which the fault check leaves [Moving]: the [Moving] block
    acts, and the [PendingStopped] block after it when the former has set
    that state. *)
Lemma cycle_from_moving (now : ros.Time) (mok : bool) (ms : MotionSafety.t) :
  state_ (fst (checkFaults ms)) = Moving ->
  state_ (cycle_end now mok ms)
  = if now - last_commanded_movement_time_ ms >? ros.sec 3 then Stopped
    else if negb (cycle_encoders_ok now ms) || negb mok
         then if pendingExit now ms then Stopped else PendingStopped
         else Moving.
Proof.
  intros Hs. pose proof (entry_view now ms) as Hv. cbv zeta in Hv.
  unfold MotionSafety.cycle_end, MotionSafety.cycle_encoders_ok.
  rewrite ?watchdogCallback_steady, ?watchdogCycle_steady, ?beforePending_steady.
  destruct (checkFaults ms) as [ms1 pubs]. cbn [fst] in Hs, Hv |- *.
  destruct (EncodersMonitor.ok now (encoders_monitor_ ms1)) as [eok em].
  cbn [fst snd] in Hv |- *.
  set (ms2 := set_encoders_monitor em ms1) in *.
  assert (Hs2 : state_ ms2 = Moving) by exact Hs. clearbody ms2.
  assert (Ht : last_commanded_movement_time_ ms2 = last_commanded_movement_time_ ms)
    by (unfold guard_view in Hv; congruence).
  assert (Hexit : pendingExit now (set_state PendingStopped ms2) = pendingExit now ms)
    by (apply pendingExit_view; exact Hv).
  unfold MotionSafety.stoppedBlock, MotionSafety.stoppedBlockAt, MotionSafety.startingBlock, MotionSafety.startingBlockAt, movingBlock,
    MotionSafety.pendingStoppedBlock.
  repeat (rewrite Hs2; cbn [eqb]).
  destruct (negb eok || negb mok).
  - change (last_commanded_movement_time_ (set_state PendingStopped ms2))
      with (last_commanded_movement_time_ ms2).
    rewrite Ht.
    destruct (now - last_commanded_movement_time_ ms >? ros.sec 3); [reflexivity|].
    change (state_ (set_state PendingStopped ms2)) with PendingStopped. cbn [eqb].
    rewrite Hexit. destruct (pendingExit now ms); reflexivity.
  - rewrite Ht.
    destruct (now - last_commanded_movement_time_ ms >? ros.sec 3); [reflexivity|].
    rewrite Hs2. cbn [eqb fst]. exact Hs2.
Qed.

Lemma pendingExit_true (now : ros.Time) (ms : MotionSafety.t) :
  pendingExit now ms = true <->
  EncodersMonitor.moving isStationary (encoders_monitor_ ms) = false /\
  now - last_commanded_movement_time_ ms > ros.sec 1 /\
  isEstopped ms = true.
Proof.
  unfold MotionSafety.pendingExit.
  rewrite !andb_true_iff, negb_true_iff, Z.gtb_gt. tauto.
Qed.

(** C4, as amended.  The estop datum is the last message a cycle
    publishes, and it is true if and only if the cycle reaches its
    [PendingStopped] block in [PendingStopped] or ends in [Fault]: that
    is, if and only if the state at the end of the cycle is
    [PendingStopped] or [Fault], or the cycle is the one that leaves
    [PendingStopped] for [Stopped]. *)
Theorem estop_published (now : ros.Time) (mok : bool) (ms : MotionSafety.t) :
  (exists pubs a,
      snd (watchdogCallback now mok ms)
      = pubs ++ [pub_ambience a; pub_estop (cycle_estop now mok ms)]) /\
  (cycle_estop now mok ms = true <->
     state_ (cycle_end now mok ms) = PendingStopped \/
     state_ (cycle_end now mok ms) = Fault \/
     (state_ (cycle_end now mok ms) = Stopped /\
      state_ (cycle_reaches_pending now mok ms) = PendingStopped)).
Proof.
  unfold MotionSafety.cycle_estop, MotionSafety.cycle_end, MotionSafety.cycle_reaches_pending.
  rewrite ?watchdogCallback_steady, ?watchdogCycle_steady.
  destruct (beforePending now mok ms) as [[ms5 a] pubs]. cbn [fst snd].
  unfold MotionSafety.pendingStoppedBlock, faultBlock.
  destruct (state_ ms5) eqn:Hs; cbn [eqb];
    try destruct (pendingExit now ms5); cbn [fst snd state_ set_state eqb];
    rewrite ?Hs; cbn [eqb];
    (split; [now exists pubs, a |]);
    intuition congruence.
Qed.

(** C9.  From [PendingStopped], in a cycle in which no fault fires, the
    state at the end of the cycle is [Stopped] exactly when the encoders
    show the vehicle not moving, the last non-stationary command is more
    than one second old and the estop bit of the controller status is
    set; if any of the three fails the state remains [PendingStopped]. *)
Theorem pending_exit_exactly (now : ros.Time) (mok : bool) (ms : MotionSafety.t) :
  state_ ms = PendingStopped ->
  fault_fires ms = false ->
  let guard :=
    EncodersMonitor.moving isStationary (encoders_monitor_ ms) = false /\
    now - last_commanded_movement_time_ ms > ros.sec 1 /\
    isEstopped ms = true in
  (state_ (cycle_end now mok ms) = Stopped <-> guard) /\
  (~ guard -> state_ (cycle_end now mok ms) = PendingStopped).
Proof.
  intros Hs Hf guard. apply fault_fires_false in Hf. rewrite Hs in Hf.
  rewrite (cycle_from_pending now mok ms Hf).
  pose proof (pendingExit_true now ms) as Hg. fold guard in Hg.
  destruct (pendingExit now ms); split.
  - split; [intros _; now apply Hg | reflexivity].
  - intros Hn. exfalso. apply Hn. now apply Hg.
  - split; [discriminate | intros H; apply Hg in H; discriminate].
  - reflexivity.
Qed.

(** C5, as amended.  From [Moving], in a cycle in which no fault fires
    and the encoders or the motor controllers are not ok, the state at
    the end of the cycle is [PendingStopped] or [Stopped]: it is
    [PendingStopped] exactly when the last non-stationary command is at
    most three seconds old and the exit guard of [PendingStopped] does
    not hold in that same cycle. *)
Theorem moving_unhealthy (now : ros.Time) (mok : bool) (ms : MotionSafety.t) :
  state_ ms = Moving ->
  fault_fires ms = false ->
  cycle_encoders_ok now ms = false \/ mok = false ->
  (state_ (cycle_end now mok ms) = PendingStopped <->
     now - last_commanded_movement_time_ ms <= ros.sec 3 /\
     pendingExit now ms = false) /\
  (state_ (cycle_end now mok ms) = PendingStopped \/
   state_ (cycle_end now mok ms) = Stopped).
Proof.
  intros Hs Hf Hbad. apply fault_fires_false in Hf. rewrite Hs in Hf.
  rewrite (cycle_from_moving now mok ms Hf).
  assert (Hor : negb (cycle_encoders_ok now ms) || negb mok = true)
    by (destruct Hbad as [-> | ->]; [reflexivity | apply orb_true_r]).
  rewrite Hor.
  destruct (Z.gtb_spec (now - last_commanded_movement_time_ ms) (ros.sec 3)).
  - split; [split; [discriminate | lia] | now right].
  - destruct (pendingExit now ms).
    + split; [split; [discriminate | intros [_ Hx]; discriminate] | now right].
    + split; [split; [intros _; split; [lia | reflexivity] | reflexivity] | now left].
Qed.

(** *** The precharge fault on the first status *)

Local Abbreviation driveCallback := (MotionSafety.driveCallback isStationary).
Local Abbreviation step :=
  (MotionSafety.step ERROR_BRK_DET ERROR_ESTOP_RESET PATTERN_DFLASH isStationary).
Local Abbreviation run :=
  (MotionSafety.run ERROR_BRK_DET ERROR_ESTOP_RESET PATTERN_DFLASH isStationary).

Lemma checkEncoders_frame (ms : MotionSafety.t) :
  cycle_frame (fst (checkEncoders ms)) = cycle_frame ms.
Proof. unfold checkEncoders, setFault. split_tests; reflexivity. Qed.

Lemma stoppedBlock_frame (now : ros.Time) (ms : MotionSafety.t) :
  cycle_frame (stoppedBlock now ms) = cycle_frame ms.
Proof. unfold MotionSafety.stoppedBlock, MotionSafety.stoppedBlockAt. split_tests; reflexivity. Qed.

Lemma startingBlock_frame (now : ros.Time) (eok mok : bool)
    (ms : MotionSafety.t) (a : Ambience) :
  cycle_frame (fst (startingBlock now eok mok ms a)) = cycle_frame ms.
Proof. unfold MotionSafety.startingBlock, MotionSafety.startingBlockAt. split_tests; reflexivity. Qed.

Lemma movingBlock_frame (now : ros.Time) (eok mok : bool) (ms : MotionSafety.t) :
  cycle_frame (movingBlock now eok mok ms) = cycle_frame ms.
Proof. unfold movingBlock. split_tests; reflexivity. Qed.

Lemma pendingStoppedBlock_frame (now : ros.Time) (ms : MotionSafety.t) (e : bool) :
  cycle_frame (fst (pendingStoppedBlock now ms e)) = cycle_frame ms.
Proof. unfold MotionSafety.pendingStoppedBlock. split_tests; reflexivity. Qed.

(** After its precharge check a cycle touches neither what that check
    reads nor the limiters. *)
Lemma cycle_end_frame (now : ros.Time) (mok : bool) (ms : MotionSafety.t) :
  cycle_frame (cycle_end now mok ms) = cycle_frame (fst (checkPrecharge ms)).
Proof.
  unfold MotionSafety.cycle_end.
  rewrite ?watchdogCallback_steady, ?watchdogCycle_steady, ?beforePending_steady.
  unfold MotionSafety.checkFaults.
  destruct (checkPrecharge ms) as [ms0 pubs0]. cbn [fst].
  pose proof (checkEncoders_frame ms0) as H1.
  destruct (checkEncoders ms0) as [ms1 pubs1]. cbn [fst] in H1.
  destruct (EncodersMonitor.ok now (encoders_monitor_ ms1)) as [eok em].
  set (ms2 := set_encoders_monitor em ms1).
  assert (H2 : cycle_frame ms2 = cycle_frame ms1) by reflexivity.
  pose proof (stoppedBlock_frame now ms2) as H3.
  set (ms3 := stoppedBlock now ms2) in *.
  pose proof (startingBlock_frame now eok mok ms3 Ambience0) as H4.
  destruct (startingBlock now eok mok ms3 Ambience0) as [ms4 a]. cbn [fst] in H4.
  pose proof (movingBlock_frame now eok mok ms4) as H5.
  set (ms5 := movingBlock now eok mok ms4) in *.
  pose proof (pendingStoppedBlock_frame now ms5 false) as H6.
  destruct (pendingStoppedBlock now ms5 false) as [ms6 e]. cbn [fst] in H6 |- *.
  congruence.
Qed.

Lemma cycle_end_precharge (now : ros.Time) (mok : bool) (ms : MotionSafety.t) :
  precharge_view (cycle_end now mok ms) = precharge_view (fst (checkPrecharge ms)).
Proof. exact (f_equal fst (cycle_end_frame now mok ms)). Qed.

Lemma cycle_end_limiters (now : ros.Time) (mok : bool) (ms : MotionSafety.t) :
  accel_limiters_ (cycle_end now mok ms) = accel_limiters_ ms.
Proof.
  rewrite (f_equal snd (cycle_end_frame now mok ms) : accel_limiters_ _ = _).
  unfold MotionSafety.checkPrecharge, setFault.
  destruct (last_mcu_status_ ms); [|reflexivity]. split_tests; reflexivity.
Qed.

Lemma driveCallback_precharge (now : ros.Time) (d : Drive) (ms : MotionSafety.t) :
  precharge_view (fst (driveCallback now d ms)) = precharge_view ms.
Proof. unfold MotionSafety.driveCallback. split_tests; reflexivity. Qed.

Lemma estopCallback_precharge (data : bool) (ms : MotionSafety.t) :
  precharge_view (fst (estopCallback data ms)) = precharge_view ms.
Proof. unfold estopCallback. split_tests; reflexivity. Qed.

(** Before any status has arrived, the time of the last status without
    precharge is the one the constructor left. *)
Lemma step_before_status (ms : MotionSafety.t) (c : call) :
  is_mcuStatus c = false ->
  precharge_view ms = (None, ros.Time0) ->
  precharge_view (step ms c) = (None, ros.Time0).
Proof.
  intros Hc Hv. destruct c as [now mok|now d|data|status|e|d]; cbn [MotionSafety.step].
  - fold (cycle_end now mok ms). rewrite cycle_end_precharge.
    unfold MotionSafety.checkPrecharge.
    assert (E : last_mcu_status_ ms = None) by (unfold precharge_view in Hv; congruence).
    rewrite E. exact Hv.
  - now rewrite driveCallback_precharge.
  - now rewrite estopCallback_precharge.
  - discriminate.
  - exact Hv.
  - exact Hv.
Qed.

Lemma run_before_status (cs : list call) :
  forall ms : MotionSafety.t,
    forallb (fun c => negb (is_mcuStatus c)) cs = true ->
    precharge_view ms = (None, ros.Time0) ->
    precharge_view (run ms cs) = (None, ros.Time0).
Proof.
  induction cs as [|c cs IH]; intros ms Hcs Hv; [exact Hv|].
  cbn in Hcs. apply andb_true_iff in Hcs as [Hc Hcs]. apply negb_true_iff in Hc.
  cbn. apply IH; [exact Hcs|]. now apply step_before_status.
Qed.

(** Between two cycles, the other callbacks leave alone what the
    precharge check reads. *)
Lemma run_between_cycles (cs : list call) :
  forall ms : MotionSafety.t,
    forallb (fun c => negb (is_mcuStatus c) && negb (is_watchdog c)) cs = true ->
    precharge_view (run ms cs) = precharge_view ms.
Proof.
  induction cs as [|c cs IH]; intros ms Hcs; [reflexivity|].
  cbn in Hcs. apply andb_true_iff in Hcs as [Hc Hcs].
  change (precharge_view (run (step ms c) cs) = precharge_view ms).
  rewrite (IH _ Hcs).
  destruct c as [now mok|now d|data|status|e|d]; try discriminate;
    cbn [MotionSafety.step].
  - apply driveCallback_precharge.
  - apply estopCallback_precharge.
  - reflexivity.
  - reflexivity.
Qed.

(** A cycle whose fault check leaves [Fault]: none of the blocks changes
    the node, and the estop datum is true. *)
Lemma cycle_from_fault (now : ros.Time) (mok : bool) (ms : MotionSafety.t) :
  let ms1 := fst (checkFaults ms) in
  state_ ms1 = Fault ->
  cycle_end now mok ms
  = set_encoders_monitor (snd (EncodersMonitor.ok now (encoders_monitor_ ms1))) ms1
  /\ cycle_estop now mok ms = true.
Proof.
  intros ms1 Hs. subst ms1.
  unfold MotionSafety.cycle_end, MotionSafety.cycle_estop.
  rewrite ?watchdogCallback_steady, ?watchdogCycle_steady, ?beforePending_steady.
  destruct (checkFaults ms) as [ms1 pubs]. cbn [fst] in Hs |- *.
  destruct (EncodersMonitor.ok now (encoders_monitor_ ms1)) as [eok em]. cbn [snd].
  set (ms2 := set_encoders_monitor em ms1) in *.
  assert (Hs2 : state_ ms2 = Fault) by exact Hs. clearbody ms2.
  unfold MotionSafety.stoppedBlock, MotionSafety.stoppedBlockAt, MotionSafety.startingBlock, MotionSafety.startingBlockAt, movingBlock,
    MotionSafety.pendingStoppedBlock, faultBlock.
  repeat (rewrite Hs2; cbn [eqb fst snd]). split; reflexivity.
Qed.

(** The precharge check on a node that has its first status at hand. *)
Lemma checkPrecharge_first_status (ms : MotionSafety.t) (status : RawStatus) :
  precharge_view ms = (Some status, ros.Time0) ->
  flag ERROR_BRK_DET (error status) = true ->
  status_stamp status - ros.Time0 > ros.sec 4 ->
  checkPrecharge ms = setFault precharge_reason ms.
Proof.
  unfold precharge_view. intros [= Hst Ht] Hbit Hlate.
  unfold MotionSafety.checkPrecharge. rewrite Hst, Hbit. cbn [negb]. rewrite Ht.
  destruct (Z.gtb_spec (status_stamp status - ros.Time0) (ros.sec 4)); [reflexivity | lia].
Qed.

(** C10.  The time of the last status without precharge is left at time
    zero by the constructor and by every callback until a status arrives.
    So when the first status ever received has the precharge bit set and
    is stamped more than four seconds after time zero, the next fault
    check calls [setFault] with the precharge reason at once: the node is
    in [Fault] after the check and at the end of that cycle, with the
    estop asserted, and the reason it holds is the precharge one unless
    the encoders fault fires in the same check and replaces it. *)
Theorem first_status_precharge_fault (width radius max_accel : Q)
    (before between : list call) (status : RawStatus)
    (now : ros.Time) (mok : bool) :
  forallb (fun c => negb (is_mcuStatus c)) before = true ->
  forallb (fun c => negb (is_mcuStatus c) && negb (is_watchdog c)) between = true ->
  flag ERROR_BRK_DET (error status) = true ->
  status_stamp status - ros.Time0 > ros.sec 4 ->
  let ms :=
    run (mcuStatusCallback status (run (MotionSafety.new width radius max_accel) before))
        between in
  last_non_precharge_time_ ms = ros.Time0 /\
  checkPrecharge ms = setFault precharge_reason ms /\
  state_ (fst (checkFaults ms)) = Fault /\
  state_ (cycle_end now mok ms) = Fault /\
  cycle_estop now mok ms = true /\
  (fst (EncodersMonitor.detectFailedEncoder (encoders_monitor_ ms)) = false ->
   fault_reason_ (cycle_end now mok ms) = precharge_reason).
Proof.
  intros Hbefore Hbetween Hbit Hlate ms.
  assert (Hv : precharge_view ms = (Some status, ros.Time0)).
  { subst ms. rewrite (run_between_cycles between _ Hbetween).
    pose proof (run_before_status before (MotionSafety.new width radius max_accel)
                  Hbefore eq_refl) as H0.
    unfold precharge_view in *. cbn. congruence. }
  pose proof (checkPrecharge_first_status ms status Hv Hbit Hlate) as Hp.
  clearbody ms.
  assert (Hc : state_ (fst (checkFaults ms)) = Fault /\
               (fst (EncodersMonitor.detectFailedEncoder (encoders_monitor_ ms)) = false ->
                fault_reason_ (fst (checkFaults ms)) = precharge_reason)).
  { unfold MotionSafety.checkFaults. rewrite Hp. unfold setFault, checkEncoders.
    cbn [encoders_monitor_ set_fault_reason set_state].
    destruct (EncodersMonitor.detectFailedEncoder (encoders_monitor_ ms)) as [[|] em];
      cbn; (split; [reflexivity|]); [discriminate | reflexivity]. }
  destruct Hc as [Hs Hr].
  destruct (cycle_from_fault now mok ms Hs) as [Hend Hestop].
  split; [unfold precharge_view in Hv; congruence|].
  split; [exact Hp|]. split; [exact Hs|].
  rewrite Hend. cbn [state_ fault_reason_ set_encoders_monitor].
  split; [exact Hs|]. split; [exact Hestop | exact Hr].
Qed.

End Watchdog.

(** The cycle functions at the sample constants. *)
Local Abbreviation sample_cycle_end :=
  (MotionSafety.cycle_end Scenario.ERROR_BRK_DET Scenario.ERROR_ESTOP_RESET
     Scenario.PATTERN_DFLASH Scenario.isStationary).
Local Abbreviation sample_cycle_endAt :=
  (MotionSafety.cycle_endAt Scenario.ERROR_BRK_DET Scenario.ERROR_ESTOP_RESET
     Scenario.PATTERN_DFLASH Scenario.isStationary).
Local Abbreviation sample_watchdogCallback :=
  (MotionSafety.watchdogCallback Scenario.ERROR_BRK_DET Scenario.ERROR_ESTOP_RESET
     Scenario.PATTERN_DFLASH Scenario.isStationary).
Local Abbreviation sample_fault_fires := (MotionSafety.fault_fires Scenario.ERROR_BRK_DET).
Local Abbreviation sample_cycle_encoders_ok :=
  (MotionSafety.cycle_encoders_ok Scenario.ERROR_BRK_DET).

Lemma pending_exit_exactly_witness :
  MotionSafety.state_ Scenario.pending_node = MotionStates.PendingStopped /\
  sample_fault_fires Scenario.pending_node = false /\
  MotionSafety.state_ (sample_cycle_end (ros.sec 3) true Scenario.pending_node)
  = MotionStates.Stopped.
Proof.
  split; [reflexivity|]. split; [reflexivity|].
  destruct (pending_exit_exactly Scenario.ERROR_BRK_DET Scenario.ERROR_ESTOP_RESET
              Scenario.PATTERN_DFLASH Scenario.isStationary
              (ros.sec 3) true Scenario.pending_node eq_refl eq_refl) as [[_ H] _].
  apply H. repeat split.
Defined.

(** C4 without the exit cycle fails on the cycle that leaves [PendingStopped]:
    the state at the end of the cycle is [Stopped], and the estop datum
    published at its end is true. *)
Lemma estop_true_on_leaving_pending :
  let r := sample_watchdogCallback (ros.sec 3) true Scenario.pending_node in
  MotionSafety.state_ (fst r) = MotionStates.Stopped /\
  snd r = [MotionSafety.pub_ambience Ambience0; MotionSafety.pub_estop true].
Proof. split; reflexivity. Qed.

Lemma moving_unhealthy_witness :
  MotionSafety.state_ Scenario.moving_node = MotionStates.Moving /\
  sample_fault_fires Scenario.moving_node = false /\
  MotionSafety.state_ (sample_cycle_end (ros.msec 3200) false Scenario.moving_node)
  = MotionStates.PendingStopped.
Proof.
  split; [reflexivity|]. split; [reflexivity|].
  destruct (moving_unhealthy Scenario.ERROR_BRK_DET Scenario.ERROR_ESTOP_RESET
              Scenario.PATTERN_DFLASH Scenario.isStationary
              (ros.msec 3200) false Scenario.moving_node eq_refl eq_refl
              (or_intror eq_refl)) as [[_ H] _].
  apply H. split; [vm_compute; discriminate | reflexivity].
Defined.

(** C5 without the two provisos fails when the last command to move is more
    than three seconds old: the node is [Moving], no fault fires, the
    encoders are not ok (their feedback is stale), and the cycle ends in
    [Stopped]. *)
Lemma moving_unhealthy_ends_stopped :
  MotionSafety.state_ Scenario.moving_node = MotionStates.Moving /\
  sample_fault_fires Scenario.moving_node = false /\
  sample_cycle_encoders_ok (ros.msec 6500) Scenario.moving_node = false /\
  MotionSafety.state_ (sample_cycle_end (ros.msec 6500) true Scenario.moving_node)
  = MotionStates.Stopped.
Proof. repeat split; reflexivity. Qed.

Lemma first_status_precharge_fault_witness :
  MotionSafety.state_ (sample_cycle_end (ros.msec 5050) true Scenario.precharging_node)
  = MotionStates.Fault /\
  MotionSafety.fault_reason_
    (sample_cycle_end (ros.msec 5050) true Scenario.precharging_node)
  = MotionSafety.precharge_reason.
Proof.
  destruct (first_status_precharge_fault
              Scenario.ERROR_BRK_DET Scenario.ERROR_ESTOP_RESET
              Scenario.PATTERN_DFLASH Scenario.isStationary
              1 0.25 0.5 Scenario.before_first_status Scenario.after_first_status
              Scenario.precharging (ros.msec 5050) true
              eq_refl eq_refl eq_refl eq_refl)
    as (_ & _ & _ & Hstate & _ & Hreason).
  split; [exact Hstate | apply Hreason; reflexivity].
Defined.

(** ** The change limiter *)

Section Limiter.

Import DriveChangeLimiter.

Lemma toSec_nonneg (d : ros.Duration) : 0 <= d -> (0 <= ros.toSec d)%Q.
Proof.
  intros H. unfold ros.toSec. apply Qle_shift_div_l; [reflexivity|].
  rewrite Qmult_0_l. change 0%Q with (inject_Z 0). rewrite <- Zle_Qle. exact H.
Qed.

Lemma clamp_between (x lo hi : Q) :
  (lo <= hi)%Q -> (lo <= clamp x lo hi <= hi)%Q.
Proof.
  intros H. unfold clamp.
  destruct (Eigen.Qltb x lo) eqn:E1; [split; lra|].
  apply Qltb_false in E1.
  destruct (Eigen.Qltb hi x) eqn:E2; [split; lra|].
  apply Qltb_false in E2. split; lra.
Qed.

(** Inside the window the command passes unchanged. *)
Lemma clamp_inside (x lo hi : Q) :
  (lo <= x <= hi)%Q -> clamp x lo hi = x.
Proof.
  intros [H1 H2]. unfold clamp.
  destruct (Eigen.Qltb x lo) eqn:E1; [apply Qltb_true in E1; lra|].
  destruct (Eigen.Qltb hi x) eqn:E2; [apply Qltb_true in E2; lra|].
  reflexivity.
Qed.

(** Every call leaves the rate and the member pointer as constructed and
    stores its output and its time. *)
Lemma limit_state (commanded : Q) (now : ros.Time) (l : t) :
  let r := limit commanded now l in
  max_rate (snd r) = max_rate l /\
  field_ptr (snd r) = field_ptr l /\
  previous_output (snd r) = Some (fst r) /\
  previous_timestamp (snd r) = Some now.
Proof.
  unfold limit.
  destruct (previous_output l) as [prev|], (previous_timestamp l) as [tprev|];
    cbn; repeat split.
Qed.

(** A call on a limiter that has a previous output. *)
Lemma limit_step (commanded prev : Q) (now tprev : ros.Time) (l : t) :
  previous_output l = Some prev ->
  previous_timestamp l = Some tprev ->
  (0 <= max_rate l)%Q ->
  tprev <= now ->
  (Qabs (fst (limit commanded now l) - prev)
   <= max_rate l * ros.toSec (now - tprev)%Z)%Q.
Proof.
  intros Hp Ht Hrate Hdt. unfold limit. rewrite Hp, Ht. cbn [fst].
  set (d := (max_rate l * ros.toSec (now - tprev)%Z)%Q).
  assert (Hd : (0 <= d)%Q)
    by (apply Qmult_le_0_compat; [exact Hrate | apply toSec_nonneg; lia]).
  destruct (clamp_between commanded (prev - d)%Q (prev + d)%Q) as [Hlo Hhi]; [lra|].
  apply Qabs_Qle_condition. split; lra.
Qed.

Lemma increasing_tail (c : Q * ros.Time) (calls : list (Q * ros.Time)) :
  increasing (c :: calls) -> increasing calls.
Proof. intros H k a b Ha Hb. exact (H (S k) a b Ha Hb). Qed.

(** Every call gives an output. *)
Lemma outputs_length (calls : list (Q * ros.Time)) :
  forall l : t, length (outputs l calls) = length calls.
Proof.
  induction calls as [|[c0 t0] calls IH]; intros l; [reflexivity|].
  cbn [outputs]. destruct (limit c0 t0 l) as [o0 l1]. cbn. now rewrite IH.
Qed.

(** C7.  For every limiter, whose rate is fixed when it is constructed
    and is not negative, and every sequence of calls with strictly
    increasing time stamps, each output after the first differs from the
    output before it by at most the rate times the time elapsed between
    the two calls. *)
Theorem limiter_rate_bound (l : t) (calls : list (Q * ros.Time)) (k : nat) :
  (0 <= max_rate l)%Q ->
  increasing calls ->
  (S k < length calls)%nat ->
  let output i := nth i (outputs l calls) 0%Q in
  let time i := nth i (map snd calls) 0 in
  (Qabs (output (S k) - output k) <= max_rate l * ros.toSec (time (S k) - time k)%Z)%Q.
Proof.
  revert l k. induction calls as [|[c0 t0] rest IH]; intros l k Hrate Hinc Hlen;
    [cbn in Hlen; lia|].
  cbv zeta. cbn [outputs].
  pose proof (limit_state c0 t0 l) as Hst. cbv zeta in Hst.
  destruct (limit c0 t0 l) as [o0 l1]. cbn [fst snd] in Hst.
  destruct Hst as (Hr & _ & Hp & Ht).
  destruct k as [|k].
  - destruct rest as [|[c1 t1] rest']; [cbn in Hlen; lia|].
    cbn [outputs]. destruct (limit c1 t1 l1) as [o1 l2] eqn:E1.
    cbn [nth map snd]. rewrite <- Hr.
    change o1 with (fst (o1, l2)). rewrite <- E1.
    apply limit_step; [exact Hp | exact Ht | now rewrite Hr |].
    specialize (Hinc 0%nat (c0, t0) (c1, t1) eq_refl eq_refl). cbn in Hinc. lia.
  - cbn [nth map]. rewrite <- Hr. apply (IH l1 k).
    + now rewrite Hr.
    + now apply increasing_tail in Hinc.
    + cbn in Hlen. lia.
Qed.

End Limiter.

Lemma limiter_rate_bound_witness :
  let output i := nth i (DriveChangeLimiter.outputs Scenario.limiter Scenario.jumps) 0%Q in
  (Qabs (output 2%nat - output 1%nat)
   <= DriveChangeLimiter.max_rate Scenario.limiter
      * ros.toSec (ros.msec 1500 - ros.sec 1)%Z)%Q.
Proof.
  apply (limiter_rate_bound Scenario.limiter Scenario.jumps 1%nat).
  - vm_compute. discriminate.
  - intros k c c' Hc Hc'. unfold Scenario.jumps in Hc, Hc'.
    destruct k as [|[|[|k]]]; cbn in Hc, Hc'; try discriminate;
      injection Hc as <-; injection Hc' as <-; reflexivity.
  - cbn. lia.
Defined.

Example limiter_outputs :
  Forall2 Qeq (DriveChangeLimiter.outputs Scenario.limiter Scenario.jumps) [0; 2; 1]%Q.
Proof. repeat constructor. Qed.

(** ** The drive pass-through *)

Section PassThrough.

Import MotionStates MotionSafety.

Variables ERROR_BRK_DET ERROR_ESTOP_RESET PATTERN_DFLASH : Z.
Variable isStationary : Drive -> bool.

Local Abbreviation driveCallback := (MotionSafety.driveCallback isStationary).
Local Abbreviation step :=
  (MotionSafety.step ERROR_BRK_DET ERROR_ESTOP_RESET PATTERN_DFLASH isStationary).
Local Abbreviation run :=
  (MotionSafety.run ERROR_BRK_DET ERROR_ESTOP_RESET PATTERN_DFLASH isStationary).

Local Abbreviation wiring :=
  (map (fun l => (DriveChangeLimiter.field_ptr l, DriveChangeLimiter.max_rate l))).





End PassThrough.

Example safe_drive_while_starting :
  snd (MotionSafety.driveCallback Scenario.isStationary (ros.msec 1000)
         (Scenario.all_turning (ros.msec 1000)) Scenario.node)
  = [MotionSafety.pub_safe_drive (Scenario.at_rest (ros.msec 1000))].
Proof. reflexivity. Qed.

Example safe_drive_while_moving :
  snd (MotionSafety.driveCallback Scenario.isStationary (ros.msec 3100)
         (Scenario.all_turning (ros.msec 3100)) Scenario.moving_node)
  = [MotionSafety.pub_safe_drive (Scenario.all_turning (ros.msec 3100))].
Proof. reflexivity. Qed.

(** Two commands in [Moving], a tenth of a second apart: the first, the
    first the limiters see, passes; the second, a jump to 100, goes out at
    1.2, limited against the first at two radians per second squared. *)
Example second_command_is_limited :
  let first :=
    MotionSafety.driveCallback Scenario.isStationary (ros.msec 3100)
      (Scenario.all_turning (ros.msec 3100)) Scenario.moving_node in
  let second :=
    MotionSafety.driveCallback Scenario.isStationary (ros.msec 3200)
      (Scenario.sprint (ros.msec 3200)) (fst first) in
  snd first = [MotionSafety.pub_safe_drive (Scenario.all_turning (ros.msec 3100))] /\
  exists d, snd second = [MotionSafety.pub_safe_drive d] /\
            Forall (fun x => (x == 1.2)%Q) (vectorFromDriveMsg d).
Proof.
  split; [reflexivity|]. eexists. split; [vm_compute; reflexivity|].
  repeat constructor.
Qed.

(** * Further properties *)

(** ** The monitor beyond the latch *)

Section MonitorExtras.

Import EncodersMonitor.

(** The latch stays within a range that the constructor's value and the
    candidate indices span. *)
Lemma run_latch_range (lo : Z) (cs : list call) :
  forall m : t,
    lo <= 0 ->
    lo <= failed_encoder_ m < 4 ->
    lo <= failed_encoder_ (run m cs) < 4.
Proof.
  induction cs as [|c cs IH]; intros m Hlo H; [exact H|].
  cbn. apply IH; [exact Hlo|].
  assert (Hd : lo <= failed_encoder_ (snd (detectFailedEncoder m)) < 4).
  { destruct (detectFailedEncoder_cases m)
      as [-> | [(e & d & _ & _ & _ & ->) | (e & d & k & _ & _ & _ & Hk & _ & ->)]];
      cbn; lia. }
  destruct c as [e|d| |now]; cbn [step]; try exact H; try exact Hd.
  destruct (ok_state now m) as [-> | ->]; [exact H | exact Hd].
Qed.

(** The message callbacks only replace the message they deliver, and the
    detector never replaces a message. *)
Lemma step_messages (m : t) (c : call) :
  last_received_encoders_ (step m c)
  = match c with call_encodersCallback e => Some e | _ => last_received_encoders_ m end
  /\ last_received_drive_ (step m c)
  = match c with call_driveCallback d => Some d | _ => last_received_drive_ m end.
Proof.
  assert (Hd : last_received_encoders_ (snd (detectFailedEncoder m))
               = last_received_encoders_ m
               /\ last_received_drive_ (snd (detectFailedEncoder m))
                  = last_received_drive_ m).
  { destruct (detectFailedEncoder_cases m)
      as [-> | [(e & d & _ & _ & _ & ->) | (e & d & k & _ & _ & _ & _ & _ & ->)]];
      split; reflexivity. }
  destruct c as [e|d| |now]; cbn [step]; try (split; reflexivity); try exact Hd.
  destruct (ok_state now m) as [-> | ->]; [split; reflexivity | exact Hd].
Qed.

End MonitorExtras.

(** X1.  Whatever calls reach a monitor built by the constructor,
    [failed_encoder_] is [-1] or one of the wheel indices 0 to 3: the name
    lookup of the diagnostics is never asked for another index. *)
Theorem failed_encoder_in_range (timeout time_to_failure : ros.Duration)
    (cs : list EncodersMonitor.call) :
  -1 <= EncodersMonitor.failed_encoder_
          (EncodersMonitor.run (EncodersMonitor.new timeout time_to_failure) cs) < 4.
Proof. apply run_latch_range; cbn; lia. Qed.

(** X2.  The monitor always holds the feedback and the command last
    delivered: calls of the detector and of [ok] in between never replace
    or drop a message, so [moving] answers for the last feedback
    delivered and is false until one arrives. *)
Theorem monitor_holds_last_delivered (isStationary : Drive -> bool)
    (m : EncodersMonitor.t) (cs : list EncodersMonitor.call) :
  let m' := EncodersMonitor.run m cs in
  let feedback :=
    EncodersMonitor.last_feedback cs (EncodersMonitor.last_received_encoders_ m) in
  EncodersMonitor.last_received_encoders_ m' = feedback /\
  EncodersMonitor.last_received_drive_ m'
  = EncodersMonitor.last_command cs (EncodersMonitor.last_received_drive_ m) /\
  EncodersMonitor.moving isStationary m'
  = match feedback with Some e => negb (isStationary e) | None => false end.
Proof.
  cbv zeta.
  assert (H : EncodersMonitor.last_received_encoders_ (EncodersMonitor.run m cs)
              = EncodersMonitor.last_feedback cs (EncodersMonitor.last_received_encoders_ m)
              /\ EncodersMonitor.last_received_drive_ (EncodersMonitor.run m cs)
                 = EncodersMonitor.last_command cs (EncodersMonitor.last_received_drive_ m)).
  { revert m. induction cs as [|c cs IH]; intros m; [split; reflexivity|].
    cbn. destruct (IH (EncodersMonitor.step m c)) as [H1 H2].
    destruct (step_messages m c) as [E1 E2].
    unfold EncodersMonitor.run in H1, H2. rewrite H1, H2, E1, E2.
    unfold EncodersMonitor.last_feedback, EncodersMonitor.last_command.
    destruct c; split; reflexivity. }
  destruct H as [H1 H2]. split; [exact H1|]. split; [exact H2|].
  unfold EncodersMonitor.moving. now rewrite H1.
Qed.

(** X3.  What [ok] answers and touches.  It answers [false] exactly when
    the feedback is missing or stale, or when feedback and command are both
    fresh and the reading at hand shows a candidate stamped more than the
    time to failure after the last clean reading; a latch set earlier has
    no say.  Unless feedback and command are both fresh, it leaves the
    monitor as it is. *)
Theorem ok_false_iff (now : ros.Time) (m : EncodersMonitor.t) :
  let timeout := EncodersMonitor.encoders_timeout m in
  let no_feedback :=
    EncodersMonitor.last_received_encoders_ m = None \/
    exists e, EncodersMonitor.last_received_encoders_ m = Some e /\
              EncodersMonitor.age now e > timeout in
  let persistent_candidate :=
    exists e d k,
      EncodersMonitor.last_received_encoders_ m = Some e /\
      EncodersMonitor.last_received_drive_ m = Some d /\
      EncodersMonitor.age now e <= timeout /\
      EncodersMonitor.age now d <= timeout /\
      EncodersMonitor.detect_candidate m e d = Some k /\
      stamp e - EncodersMonitor.time_of_last_nonsuspect_encoders_ m
        > EncodersMonitor.encoder_fault_time_to_failure m in
  (fst (EncodersMonitor.ok now m) = false <-> no_feedback \/ persistent_candidate) /\
  (snd (EncodersMonitor.ok now m) <> m ->
   exists e d,
     EncodersMonitor.last_received_encoders_ m = Some e /\
     EncodersMonitor.last_received_drive_ m = Some d /\
     EncodersMonitor.age now e <= timeout /\
     EncodersMonitor.age now d <= timeout).
Proof.
  cbv zeta. unfold EncodersMonitor.ok, EncodersMonitor.okAt.
  destruct (EncodersMonitor.last_received_encoders_ m) as [e|] eqn:He.
  2:{ split; [split; [intros _; left; now left | reflexivity] | intros H; now elim H]. }
  destruct (Z.gtb_spec (EncodersMonitor.age now e) (EncodersMonitor.encoders_timeout m))
    as [Hstale|Hfresh].
  { split; [|intros H; now elim H].
    split; [intros _; left; right; exists e; split; [reflexivity | lia] | reflexivity]. }
  assert (Hnf : ~ (Some e = None \/
                   exists e', Some e = Some e' /\
                              EncodersMonitor.age now e'
                              > EncodersMonitor.encoders_timeout m)).
  { intros [H | (e' & [= <-] & H)]; [discriminate | lia]. }
  destruct (EncodersMonitor.last_received_drive_ m) as [d|] eqn:Hd.
  2:{ split; [|intros H; now elim H].
      split; [discriminate|]. intros [H | (e' & d' & k & _ & H & _)]; [tauto | discriminate]. }
  destruct (Z.gtb_spec (EncodersMonitor.age now d) (EncodersMonitor.encoders_timeout m))
    as [Hdstale|Hdfresh].
  { split; [|intros H; now elim H].
    split; [discriminate|].
    intros [H | (e' & d' & k & _ & [= <-] & _ & H & _)]; [tauto | lia]. }
  split; [|intros _; exists e, d; repeat split; assumption].
  destruct (detectFailedEncoder_cases m)
    as [E | [(e' & d' & He' & Hd' & Hc & E) | (e' & d' & k & He' & Hd' & Hc & _ & Hgt & E)]];
    rewrite E; cbn [fst].
  - split; [discriminate|]. intros [H | (e' & d' & k & [= <-] & [= <-] & _ & _ & Hc & Hgt)];
      [tauto|].
    exfalso. unfold EncodersMonitor.detectFailedEncoder, EncodersMonitor.detect_candidate in *.
    rewrite He, Hd in E.
    destruct (EncodersMonitor.detectFailedEncoderCandidate m e d) as [[|] k'];
      [|discriminate].
    destruct (Z.gtb_spec (stamp e - EncodersMonitor.time_of_last_nonsuspect_encoders_ m)
                (EncodersMonitor.encoder_fault_time_to_failure m)); [discriminate | lia].
  - split; [discriminate|].
    intros [H | (e'' & d'' & k & [= <-] & [= <-] & _ & _ & Hc' & _)]; [tauto|].
    rewrite He in He'. rewrite Hd in Hd'.
    injection He' as <-. injection Hd' as <-. congruence.
  - split; [|reflexivity]. intros _. right.
    rewrite He in He'. rewrite Hd in Hd'. injection He' as <-. injection Hd' as <-.
    exists e, d, k. repeat split; assumption.
Qed.

(** Message callbacks leave the debounce clock and its period alone. *)
Lemma messages_keep_clock (cs : list EncodersMonitor.call) :
  forall m : EncodersMonitor.t,
    forallb EncodersMonitor.is_message cs = true ->
    EncodersMonitor.encoder_fault_time_to_failure (EncodersMonitor.run m cs)
    = EncodersMonitor.encoder_fault_time_to_failure m /\
    EncodersMonitor.time_of_last_nonsuspect_encoders_ (EncodersMonitor.run m cs)
    = EncodersMonitor.time_of_last_nonsuspect_encoders_ m.
Proof.
  induction cs as [|c cs IH]; intros m Hcs; [split; reflexivity|].
  cbn in Hcs. apply andb_true_iff in Hcs as [Hm Hcs].
  cbn. destruct (IH (EncodersMonitor.step m c) Hcs) as [H1 H2].
  unfold EncodersMonitor.run in H1, H2. rewrite H1, H2.
  destruct c; try discriminate; split; reflexivity.
Qed.

(** X4.  The time of the last clean reading starts at time zero.  So on a
    monitor that has only received messages since its construction, the
    first run of the detector latches at once when the reading at hand
    shows a candidate and is stamped more than the time to failure after
    time zero: no earlier reading need have shown it. *)
Theorem first_reading_latches_at_once (timeout time_to_failure : ros.Duration)
    (cs : list EncodersMonitor.call) (e d : Drive) (k : nat) :
  forallb EncodersMonitor.is_message cs = true ->
  let m := EncodersMonitor.driveCallback d
             (EncodersMonitor.encodersCallback e
                (EncodersMonitor.run (EncodersMonitor.new timeout time_to_failure) cs)) in
  EncodersMonitor.detect_candidate m e d = Some k ->
  stamp e - ros.Time0 > time_to_failure ->
  EncodersMonitor.detectFailedEncoder m
  = (true, EncodersMonitor.set_failed_encoder (Z.of_nat k) m).
Proof.
  intros Hcs m Hc Hlate.
  destruct (messages_keep_clock cs (EncodersMonitor.new timeout time_to_failure) Hcs)
    as [Httf Hclean].
  cbn in Httf, Hclean.
  destruct (detectFailedEncoder_cases m)
    as [E | [(e' & d' & He' & Hd' & Hc' & _) | (e' & d' & k' & He' & Hd' & Hc' & _ & _ & E)]].
  - exfalso. unfold EncodersMonitor.detectFailedEncoder, EncodersMonitor.detect_candidate in *.
    change (EncodersMonitor.last_received_encoders_ m) with (Some e) in E.
    change (EncodersMonitor.last_received_drive_ m) with (Some d) in E.
    cbv iota beta in E.
    destruct (EncodersMonitor.detectFailedEncoderCandidate m e d) as [[|] k'];
      [|discriminate].
    change (EncodersMonitor.time_of_last_nonsuspect_encoders_ m)
      with (EncodersMonitor.time_of_last_nonsuspect_encoders_
              (EncodersMonitor.run (EncodersMonitor.new timeout time_to_failure) cs)) in E.
    change (EncodersMonitor.encoder_fault_time_to_failure m)
      with (EncodersMonitor.encoder_fault_time_to_failure
              (EncodersMonitor.run (EncodersMonitor.new timeout time_to_failure) cs)) in E.
    rewrite Hclean, Httf in E.
    destruct (Z.gtb_spec (stamp e - ros.Time0) time_to_failure); [discriminate | lia].
  - injection He' as <-. injection Hd' as <-. congruence.
  - injection He' as <-. injection Hd' as <-. rewrite Hc in Hc'. injection Hc' as <-.
    exact E.
Qed.

Lemma first_reading_latches_at_once_witness :
  EncodersMonitor.detectFailedEncoder
    (EncodersMonitor.driveCallback (Scenario.all_turning (ros.msec 1000))
       (EncodersMonitor.encodersCallback (Scenario.front_left_dead (ros.msec 1000))
          (EncodersMonitor.run (EncodersMonitor.new (ros.msec 110) (ros.msec 500)) [])))
  = (true,
     EncodersMonitor.set_failed_encoder 0
       (EncodersMonitor.driveCallback (Scenario.all_turning (ros.msec 1000))
          (EncodersMonitor.encodersCallback (Scenario.front_left_dead (ros.msec 1000))
             (EncodersMonitor.run (EncodersMonitor.new (ros.msec 110) (ros.msec 500)) [])))).
Proof.
  exact (first_reading_latches_at_once (ros.msec 110) (ros.msec 500) []
           (Scenario.front_left_dead (ros.msec 1000)) (Scenario.all_turning (ros.msec 1000))
           0%nat eq_refl eq_refl eq_refl).
Defined.



(** X6.  The test for a small measured speed compares the signed speed
    with 0.01.  So a wheel measured at zero or turning in reverse passes it
    however fast it turns: when its error is the first largest and the
    difference the code computes between it and the largest of the others
    reaches the threshold, it is reported as a candidate.  The speeds are
    taken in the range in which the subtractions do not overflow. *)
Theorem reverse_speed_counts_as_small (m : EncodersMonitor.t)
    (encoders drive : Drive) (M : nat) :
  EncodersMonitor.in_range encoders drive ->
  let f := EncodersMonitor.wheel_error encoders drive in
  (Eigen.coeff (vectorFromDriveMsg encoders) M <= 0)%Q ->
  EncodersMonitor.first_argmax 4 f M ->
  EncodersMonitor.exceeds_second 4
    (EncodersMonitor.encoder_speed_error_diff_threshold m) f M ->
  EncodersMonitor.detect_candidate m encoders drive = Some M.
Proof.
  intros _ f Hneg Harg Hdom. apply detect_candidate_some.
  split; [exact Harg|]. split; [|exact Hdom].
  rewrite round_a_hundredth. apply Qle_trans with (1 := Hneg). discriminate.
Qed.

Lemma reverse_speed_counts_as_small_witness :
  EncodersMonitor.detect_candidate EncodersMonitor.init
    (Scenario.rear_right_racing 0) (Scenario.reversing 0) = Some 3%nat.
Proof.
  apply (reverse_speed_counts_as_small EncodersMonitor.init
           (Scenario.rear_right_racing 0) (Scenario.reversing 0) 3%nat).
  - repeat constructor; vm_compute; discriminate.
  - vm_compute. discriminate.
  - split; [lia|]. split.
    + intros k Hk. do 4 (destruct k as [|k]; [vm_compute; discriminate|]). lia.
    + intros k Hk. do 3 (destruct k as [|k]; [vm_compute; reflexivity|]). lia.
  - exists 0%Q. split; [split|].
    + intros k Hk Hne. do 3 (destruct k as [|k]; [vm_compute; discriminate|]).
      destruct k; [congruence | lia].
    + exists 0%nat. split; [lia|]. split; [discriminate | vm_compute; reflexivity].
    + vm_compute. discriminate.
Defined.

(** ** The diagnostics of the monitor *)

(** X7.  The diagnostics report level 0 exactly when feedback has been
    received, is not stale and no wheel is latched; in every other case
    they report level 2.  Unlike [ok], they read the latch. *)
Theorem diagnostic_level (nameFromDriveIndex : Z -> string) (now : ros.Time)
    (m : EncodersMonitor.t) (stat : diagnostic_updater.DiagnosticStatusWrapper) :
  let good :=
    exists e, EncodersMonitor.last_received_encoders_ m = Some e /\
              EncodersMonitor.age now e <= EncodersMonitor.encoders_timeout m /\
              EncodersMonitor.failed_encoder_ m < 0 in
  let lvl :=
    diagnostic_updater.level (EncodersMonitor.diagnostic nameFromDriveIndex now m stat) in
  (lvl = 0 <-> good) /\ (lvl = 0 \/ lvl = 2).
Proof.
  cbv zeta. unfold EncodersMonitor.diagnostic.
  destruct (EncodersMonitor.last_received_encoders_ m) as [e|].
  2:{ cbn. split; [|now right]. split; [discriminate | intros (e & H & _); discriminate]. }
  destruct (Z.gtb_spec (EncodersMonitor.age now e) (EncodersMonitor.encoders_timeout m))
    as [Hstale|Hfresh].
  { cbn. split; [|now right].
    split; [discriminate | intros (e' & [= <-] & H & _); lia]. }
  destruct (Z.geb_spec (EncodersMonitor.failed_encoder_ m) 0) as [Hset|Hunset].
  { cbn. split; [|now right].
    split; [discriminate | intros (e' & _ & _ & H); lia]. }
  cbn. split; [|now left]. split; [|reflexivity].
  intros _. exists e. repeat split; [assumption | lia].
Qed.

(** X8.  Once a wheel is latched, the diagnostics never report level 0
    again, whatever messages arrive and whatever the detector is asked
    later. *)
Theorem diagnostic_error_is_sticky (nameFromDriveIndex : Z -> string)
    (m : EncodersMonitor.t) (cs : list EncodersMonitor.call) (now : ros.Time)
    (stat : diagnostic_updater.DiagnosticStatusWrapper) :
  0 <= EncodersMonitor.failed_encoder_ m < 4 ->
  diagnostic_updater.level
    (EncodersMonitor.diagnostic nameFromDriveIndex now (EncodersMonitor.run m cs) stat)
  = 2.
Proof.
  intros H. pose proof (run_latch_range 0 cs m (Z.le_refl 0) H) as Hl.
  unfold EncodersMonitor.diagnostic.
  destruct (EncodersMonitor.last_received_encoders_ (EncodersMonitor.run m cs)) as [e|];
    [|reflexivity].
  destruct (EncodersMonitor.age now e >? _); [reflexivity|].
  destruct (Z.geb_spec (EncodersMonitor.failed_encoder_ (EncodersMonitor.run m cs)) 0)
    as [Hset|Hunset]; [reflexivity | lia].
Qed.

Lemma diagnostic_error_is_sticky_witness :
  diagnostic_updater.level
    (EncodersMonitor.diagnostic Scenario.nameFromDriveIndex (ros.msec 1150)
       (EncodersMonitor.run
          (EncodersMonitor.run EncodersMonitor.init Scenario.latch_front_left)
          Scenario.then_clean)
       Scenario.stat0)
  = 2.
Proof.
  apply (diagnostic_error_is_sticky Scenario.nameFromDriveIndex
           (EncodersMonitor.run EncodersMonitor.init Scenario.latch_front_left)
           Scenario.then_clean (ros.msec 1150) Scenario.stat0).
  change (EncodersMonitor.failed_encoder_
            (EncodersMonitor.run EncodersMonitor.init Scenario.latch_front_left)) with 0.
  lia.
Defined.

Example diagnostic_names_the_wheel :
  diagnostic_updater.message
    (EncodersMonitor.diagnostic Scenario.nameFromDriveIndex (ros.msec 1150)
       (EncodersMonitor.run EncodersMonitor.init
          (Scenario.latch_front_left ++ Scenario.then_clean))
       Scenario.stat0)
  = "Encoder failure detected in front left wheel. Not a recoverable error, please service system."%string.
Proof. reflexivity. Qed.

(** ** The transition table of the watchdog *)

(** The order tests of a goal and of its hypotheses, as propositions. *)
Ltac order_tests :=
  repeat match goal with
         | H : context [(_ >? _)] |- _ => rewrite Z.gtb_ltb in H
         | |- context [(_ >? _)] => rewrite Z.gtb_ltb
         end;
  repeat match goal with
         | H : (_ <? _) = true |- _ => apply Z.ltb_lt in H
         | H : (_ <? _) = false |- _ => apply Z.ltb_ge in H
         end.

Section Table.

Import MotionStates MotionSafety.

Variables ERROR_BRK_DET ERROR_ESTOP_RESET PATTERN_DFLASH : Z.
Variable isStationary : Drive -> bool.

Local Abbreviation isEstopped := (MotionSafety.isEstopped ERROR_ESTOP_RESET).
Local Abbreviation checkFaults := (MotionSafety.checkFaults ERROR_BRK_DET).
Local Abbreviation checkPrecharge := (MotionSafety.checkPrecharge ERROR_BRK_DET).
Local Abbreviation stoppedBlock := (MotionSafety.stoppedBlock ERROR_ESTOP_RESET).
Local Abbreviation startingBlock :=
  (MotionSafety.startingBlock ERROR_ESTOP_RESET PATTERN_DFLASH).
Local Abbreviation pendingExit := (MotionSafety.pendingExit ERROR_ESTOP_RESET isStationary).
Local Abbreviation pendingStoppedBlock :=
  (MotionSafety.pendingStoppedBlock ERROR_ESTOP_RESET isStationary).
Local Abbreviation watchdogCycle :=
  (MotionSafety.watchdogCycle ERROR_BRK_DET ERROR_ESTOP_RESET PATTERN_DFLASH isStationary).
Local Abbreviation watchdogCallback :=
  (MotionSafety.watchdogCallback ERROR_BRK_DET ERROR_ESTOP_RESET PATTERN_DFLASH
     isStationary).
Local Abbreviation cycle_end :=
  (MotionSafety.cycle_end ERROR_BRK_DET ERROR_ESTOP_RESET PATTERN_DFLASH isStationary).
Local Abbreviation cycle_estop :=
  (MotionSafety.cycle_estop ERROR_BRK_DET ERROR_ESTOP_RESET PATTERN_DFLASH isStationary).
Local Abbreviation cycle_ambience :=
  (MotionSafety.cycle_ambience ERROR_BRK_DET ERROR_ESTOP_RESET PATTERN_DFLASH
     isStationary).
Local Abbreviation cycle_encoders_ok := (MotionSafety.cycle_encoders_ok ERROR_BRK_DET).
Local Abbreviation stoppedBlockAt := (MotionSafety.stoppedBlockAt ERROR_ESTOP_RESET).
Local Abbreviation startingBlockAt :=
  (MotionSafety.startingBlockAt ERROR_ESTOP_RESET PATTERN_DFLASH).
Local Abbreviation watchdogCycleAt :=
  (MotionSafety.watchdogCycleAt ERROR_BRK_DET ERROR_ESTOP_RESET PATTERN_DFLASH
     isStationary).
Local Abbreviation cycle_endAt :=
  (MotionSafety.cycle_endAt ERROR_BRK_DET ERROR_ESTOP_RESET PATTERN_DFLASH isStationary).
Local Abbreviation cycle_estopAt :=
  (MotionSafety.cycle_estopAt ERROR_BRK_DET ERROR_ESTOP_RESET PATTERN_DFLASH
     isStationary).
Local Abbreviation cycle_ambienceAt :=
  (MotionSafety.cycle_ambienceAt ERROR_BRK_DET ERROR_ESTOP_RESET PATTERN_DFLASH
     isStationary).
Local Abbreviation cycle_encoders_okAt := (MotionSafety.cycle_encoders_okAt ERROR_BRK_DET).
Local Abbreviation startRequested := (MotionSafety.startRequested ERROR_ESTOP_RESET).
Local Abbreviation healthy := (MotionSafety.healthy ERROR_ESTOP_RESET).
Local Abbreviation driveCallback := (MotionSafety.driveCallback isStationary).
Local Abbreviation step :=
  (MotionSafety.step ERROR_BRK_DET ERROR_ESTOP_RESET PATTERN_DFLASH isStationary).
Local Abbreviation run :=
  (MotionSafety.run ERROR_BRK_DET ERROR_ESTOP_RESET PATTERN_DFLASH isStationary).

(** The node on which the five blocks of a cycle run. *)
Local Abbreviation entry now ms :=
  (set_encoders_monitor
     (snd (EncodersMonitor.ok now (encoders_monitor_ (fst (checkFaults ms)))))
     (fst (checkFaults ms))).

(** A cycle, block by block. *)
Lemma watchdogCycle_blocks (now : ros.Time) (mok : bool) (ms : MotionSafety.t) :
  let eok := cycle_encoders_ok now ms in
  let sb := startingBlock now eok mok (stoppedBlock now (entry now ms)) Ambience0 in
  let pb := pendingStoppedBlock now (movingBlock now eok mok (fst sb)) false in
  watchdogCycle now mok ms
  = (fst pb, snd sb, faultBlock (fst pb) (snd pb), snd (checkFaults ms)).
Proof.
  cbv zeta.
  unfold MotionSafety.cycle_encoders_ok.
  rewrite ?watchdogCycle_steady, ?beforePending_steady.
  destruct (checkFaults ms) as [ms1 pubs]. cbn [fst snd].
  destruct (EncodersMonitor.ok now (encoders_monitor_ ms1)) as [eok em]. cbn [fst snd].
  destruct (startingBlock now eok mok _ Ambience0) as [ms4 a]. cbn [fst snd].
  destruct (pendingStoppedBlock now _ false) as [ms6 e]. reflexivity.
Qed.

(** What the blocks read of the node at entry is what they would read of
    the node at the start of the cycle. *)
Lemma checkFaults_config (ms : MotionSafety.t) :
  config_view (fst (checkFaults ms)) = config_view ms.
Proof.
  assert (Hp : config_view (fst (checkPrecharge ms)) = config_view ms).
  { unfold MotionSafety.checkPrecharge, setFault.
    destruct (last_mcu_status_ ms); [|reflexivity]. split_tests; reflexivity. }
  assert (He : forall ms1, config_view (fst (checkEncoders ms1)) = config_view ms1).
  { intros ms1. unfold checkEncoders, setFault. split_tests; reflexivity. }
  unfold MotionSafety.checkFaults.
  destruct (checkPrecharge ms) as [ms1 pubs1]. cbn [fst] in Hp.
  specialize (He ms1). destruct (checkEncoders ms1) as [ms2 pubs2]. cbn [fst] in *.
  congruence.
Qed.

Lemma entry_reads (now : ros.Time) (ms : MotionSafety.t) :
  guard_view (entry now ms) = guard_view ms /\
  config_view (entry now ms) = config_view ms /\
  state_ (entry now ms) = state_ (fst (checkFaults ms)).
Proof.
  split; [exact (entry_view ERROR_BRK_DET now ms)|].
  split; [exact (checkFaults_config ms) | reflexivity].
Qed.

(** The blocks on a node in [Stopped]. *)
Lemma blocks_from_stopped (now : ros.Time) (eok mok : bool) (ms : MotionSafety.t) :
  state_ ms = Stopped ->
  0 <= starting_duration_ ms ->
  let sb := startingBlock now eok mok (stoppedBlock now ms) Ambience0 in
  let pb := pendingStoppedBlock now (movingBlock now eok mok (fst sb)) false in
  state_ (fst pb)
  = (if startRequested now ms
     then if eok && mok then Starting else PendingStopped
     else Stopped) /\
  (startRequested now ms = true ->
   transition_to_moving_time_ (fst pb) = now + starting_duration_ ms) /\
  faultBlock (fst pb) (snd pb) = startRequested now ms && negb (eok && mok).
Proof.
  intros Hs Hsd. cbv zeta.
  unfold MotionSafety.stoppedBlock, MotionSafety.stoppedBlockAt, MotionSafety.startingBlock, MotionSafety.startingBlockAt, movingBlock,
    MotionSafety.pendingStoppedBlock, faultBlock, MotionSafety.pendingExit,
    MotionSafety.startRequested, MotionSafety.isEstopped.
  destruct ms as [w r a sd s reason status lnp lcm ttm em ls].
  cbn in Hs, Hsd. subst s. cbn.
  destruct (now - lcm <? ros.msec 100) eqn:Hcmd; cbn;
    [|repeat split; discriminate].
  destruct (match status with Some st => flag ERROR_ESTOP_RESET (error st) | None => false end)
    eqn:Hest; cbn; [repeat split; discriminate|].
  destruct (now >? now + sd) eqn:Hdl; [order_tests; lia|]. cbn.
  destruct (now - lcm >? ros.msec 100) eqn:Hlapse; [order_tests; lia|]. cbn.
  rewrite Hest. destruct eok, mok; cbn; rewrite ?Hest, ?andb_false_r; cbn;
    repeat split; reflexivity.
Qed.


Lemma cycle_projections (now : ros.Time) (mok : bool) (ms : MotionSafety.t) :
  cycle_end now mok ms = fst (fst (fst (watchdogCycle now mok ms))) /\
  snd (watchdogCallback now mok ms)
  = snd (checkFaults ms)
    ++ [pub_ambience (cycle_ambience now mok ms); pub_estop (cycle_estop now mok ms)].
Proof.
  unfold MotionSafety.cycle_end, MotionSafety.cycle_ambience, MotionSafety.cycle_estop.
  rewrite ?watchdogCallback_steady.
  rewrite watchdogCycle_blocks. cbv zeta. cbn [fst snd]. split; reflexivity.
Qed.

Lemma reads_agree (now : ros.Time) (eok mok : bool) (ms ms' : MotionSafety.t) :
  guard_view ms' = guard_view ms ->
  startRequested now ms' = startRequested now ms /\
  healthy eok mok ms' = healthy eok mok ms /\
  pendingExit now ms' = pendingExit now ms.
Proof.
  intros Hv. split; [|split; [|now apply pendingExit_view]];
    unfold guard_view, MotionSafety.startRequested, MotionSafety.healthy,
      MotionSafety.isEstopped in *;
    injection Hv as H1 H2 _; rewrite ?H1, ?H2; reflexivity.
Qed.

(** The cycle from [Stopped], from the blocks. *)
Lemma stopped_table (now : ros.Time) (mok : bool) (ms : MotionSafety.t) :
  state_ (fst (checkFaults ms)) = Stopped ->
  0 <= starting_duration_ ms ->
  let eok := cycle_encoders_ok now ms in
  state_ (cycle_end now mok ms)
  = (if startRequested now ms
     then if eok && mok then Starting else PendingStopped
     else Stopped) /\
  (startRequested now ms = true ->
   transition_to_moving_time_ (cycle_end now mok ms) = now + starting_duration_ ms) /\
  cycle_estop now mok ms = startRequested now ms && negb (eok && mok).
Proof.
  intros Hs Hsd eok.
  destruct (entry_reads now ms) as (Hg & Hc & He).
  destruct (reads_agree now eok mok ms _ Hg) as (Hstart & _ & _).
  assert (Hsd' : starting_duration_ (entry now ms) = starting_duration_ ms)
    by (unfold config_view in Hc; congruence).
  destruct (blocks_from_stopped now eok mok (entry now ms)) as (H1 & H2 & H3);
    [congruence | lia |].
  rewrite Hstart, Hsd' in *.
  rewrite (proj1 (cycle_projections now mok ms)).
  unfold MotionSafety.cycle_estop. rewrite watchdogCycle_blocks. cbn [fst snd].
  split; [exact H1|]. split; [exact H2 | exact H3].
Qed.


(** The node on which the five blocks of a cycle run, with the readings
    [r]. *)
Local Abbreviation entryAt r ms :=
  (set_encoders_monitor
     (snd (EncodersMonitor.okAt (at_encoders_age r) (at_drive_age r)
             (encoders_monitor_ (fst (checkFaults ms)))))
     (fst (checkFaults ms))).

Lemma watchdogCycleAt_blocks (r : readings) (mok : bool) (ms : MotionSafety.t) :
  let eok := cycle_encoders_okAt r ms in
  let sb :=
    startingBlockAt (at_ramp_over r) (at_starting_lapse r) eok mok
      (stoppedBlockAt (at_start_request r) (at_start_deadline r) (entryAt r ms))
      Ambience0 in
  let pb :=
    pendingStoppedBlock (at_pending_exit r)
      (movingBlock (at_moving_lapse r) eok mok (fst sb)) false in
  watchdogCycleAt r mok ms
  = (fst pb, snd sb, faultBlock (fst pb) (snd pb), snd (checkFaults ms)).
Proof.
  cbv zeta.
  unfold MotionSafety.cycle_encoders_okAt, MotionSafety.watchdogCycleAt,
    MotionSafety.beforePendingAt.
  destruct (checkFaults ms) as [ms1 pubs]. cbn [fst snd].
  destruct (EncodersMonitor.okAt _ _ (encoders_monitor_ ms1)) as [eok em].
  cbn [fst snd].
  destruct (startingBlockAt _ _ eok mok _ Ambience0) as [ms4 a]. cbn [fst snd].
  destruct (pendingStoppedBlock _ _ false) as [ms6 e]. reflexivity.
Qed.

(** The blocks on a node in [Stopped], each test with its own reading of
    the clock. *)
Lemma blocksAt_from_stopped (r : readings) (eok mok : bool) (ms : MotionSafety.t) :
  state_ ms = Stopped ->
  at_ramp_over r <= at_start_deadline r + starting_duration_ ms ->
  let sb :=
    startingBlockAt (at_ramp_over r) (at_starting_lapse r) eok mok
      (stoppedBlockAt (at_start_request r) (at_start_deadline r) ms) Ambience0 in
  let pb :=
    pendingStoppedBlock (at_pending_exit r)
      (movingBlock (at_moving_lapse r) eok mok (fst sb)) false in
  let requested := startRequested (at_start_request r) ms in
  let lapsed :=
    at_starting_lapse r - last_commanded_movement_time_ ms >? ros.msec 100 in
  state_ (fst pb)
  = (if requested
     then if eok && mok then if lapsed then Stopped else Starting
          else PendingStopped
     else Stopped) /\
  (requested = true ->
   transition_to_moving_time_ (fst pb) = at_start_deadline r + starting_duration_ ms) /\
  faultBlock (fst pb) (snd pb) = requested && negb (eok && mok) /\
  snd sb
  = (if requested
     then mkAmbience PATTERN_DFLASH PATTERN_DFLASH PATTERN_DFLASH PATTERN_DFLASH
     else Ambience0).
Proof.
  intros Hs Hsd. cbv zeta.
  unfold MotionSafety.stoppedBlockAt, MotionSafety.startingBlockAt, movingBlock,
    MotionSafety.pendingStoppedBlock, faultBlock, MotionSafety.pendingExit,
    MotionSafety.startRequested, MotionSafety.isEstopped.
  destruct r as [t_enc t_drv t_req t_dl t_over t_lapse t_mv t_exit].
  destruct ms as [w rad a sd s reason status lnp lcm ttm em ls].
  cbn in Hs, Hsd. subst s. cbn.
  destruct (t_req - lcm <? ros.msec 100) eqn:Hcmd; cbn;
    [|repeat split; discriminate].
  destruct (match status with Some st => flag ERROR_ESTOP_RESET (error st) | None => false end)
    eqn:Hest; cbn; [repeat split; discriminate|].
  destruct (t_over >? t_dl + sd) eqn:Hdl; [order_tests; lia|]. cbn.
  destruct (t_lapse - lcm >? ros.msec 100) eqn:Hlapse; cbn;
    rewrite Hest; destruct eok, mok; cbn; rewrite ?Hest, ?andb_false_r; cbn;
    repeat split; reflexivity.
Qed.

Lemma entryAt_reads (r : readings) (ms : MotionSafety.t) :
  guard_view (entryAt r ms) = guard_view ms /\
  config_view (entryAt r ms) = config_view ms /\
  state_ (entryAt r ms) = state_ (fst (checkFaults ms)).
Proof.
  split; [exact (entryAt_view ERROR_BRK_DET (at_encoders_age r) (at_drive_age r) ms)|].
  split; [exact (checkFaults_config ms) | reflexivity].
Qed.

(** The cycle from [Stopped] with the readings [r], from the blocks. *)
Lemma stopped_tableAt (r : readings) (mok : bool) (ms : MotionSafety.t) :
  state_ (fst (checkFaults ms)) = Stopped ->
  at_ramp_over r <= at_start_deadline r + starting_duration_ ms ->
  let eok := cycle_encoders_okAt r ms in
  let requested := startRequested (at_start_request r) ms in
  let lapsed :=
    at_starting_lapse r - last_commanded_movement_time_ ms >? ros.msec 100 in
  state_ (cycle_endAt r mok ms)
  = (if requested
     then if eok && mok then if lapsed then Stopped else Starting
          else PendingStopped
     else Stopped) /\
  (requested = true ->
   transition_to_moving_time_ (cycle_endAt r mok ms)
   = at_start_deadline r + starting_duration_ ms) /\
  cycle_estopAt r mok ms = requested && negb (eok && mok) /\
  cycle_ambienceAt r mok ms
  = (if requested
     then mkAmbience PATTERN_DFLASH PATTERN_DFLASH PATTERN_DFLASH PATTERN_DFLASH
     else Ambience0).
Proof.
  intros Hs Hsd eok requested lapsed.
  destruct (entryAt_reads r ms) as (Hg & Hc & He).
  assert (Hsd' : starting_duration_ (entryAt r ms) = starting_duration_ ms)
    by (unfold config_view in Hc; congruence).
  assert (Hlcm : last_commanded_movement_time_ (entryAt r ms)
                 = last_commanded_movement_time_ ms)
    by (unfold guard_view in Hg; congruence).
  assert (Hreq : startRequested (at_start_request r) (entryAt r ms) = requested).
    by exact (proj1 (reads_agree (at_start_request r) eok mok ms _ Hg)).
  destruct (blocksAt_from_stopped r eok mok (entryAt r ms)) as (H1 & H2 & H3 & H4);
    [congruence | lia |].
  rewrite Hreq, Hsd', Hlcm in *.
  unfold MotionSafety.cycle_endAt, MotionSafety.watchdogCallbackAt,
    MotionSafety.cycle_estopAt, MotionSafety.cycle_ambienceAt.
  rewrite watchdogCycleAt_blocks. cbn [fst snd].
  split; [exact H1|]. split; [exact H2|]. split; [exact H3 | exact H4].
Qed.

(** X9.  A cycle whose fault check leaves [Stopped], each call of
    [ros::Time::now()] in it a reading of its own, and the deadline of the
    ramp not yet past when the [Starting] block tests it.  The cycle ends
    in [Stopped] unless, at the first reading, a command to move is less
    than a tenth of a second old and the estop bit is clear.  Then it
    stores the deadline of the ramp, the second reading plus the starting
    duration, and flashes the ambience; when encoders or motor controllers
    are not ok it ends in [PendingStopped] with the estop asserted; when
    they are ok it ends in [Starting], unless by the reading of the
    [Starting] block the command has grown more than a tenth of a second
    old, when it ends in [Stopped] again.  It never ends in [Moving]. *)
Theorem cycle_from_stopped_table (r : readings) (mok : bool) (ms : MotionSafety.t) :
  state_ (fst (checkFaults ms)) = Stopped ->
  at_ramp_over r <= at_start_deadline r + starting_duration_ ms ->
  let eok := cycle_encoders_okAt r ms in
  let requested := startRequested (at_start_request r) ms in
  let lapsed :=
    at_starting_lapse r - last_commanded_movement_time_ ms >? ros.msec 100 in
  state_ (cycle_endAt r mok ms)
  = (if requested
     then if eok && mok then if lapsed then Stopped else Starting
          else PendingStopped
     else Stopped) /\
  (requested = true ->
   transition_to_moving_time_ (cycle_endAt r mok ms)
   = at_start_deadline r + starting_duration_ ms) /\
  cycle_estopAt r mok ms = requested && negb (eok && mok) /\
  cycle_ambienceAt r mok ms
  = (if requested
     then mkAmbience PATTERN_DFLASH PATTERN_DFLASH PATTERN_DFLASH PATTERN_DFLASH
     else Ambience0).
Proof. exact (stopped_tableAt r mok ms). Qed.



(** ** What the callbacks never do *)

Lemma driveCallback_state (now : ros.Time) (d : Drive) (ms : MotionSafety.t) :
  state_ (fst (driveCallback now d ms)) = state_ ms.
Proof. unfold MotionSafety.driveCallback. split_tests; reflexivity. Qed.

Lemma driveCallback_zero (now : ros.Time) (d : Drive) (ms : MotionSafety.t) :
  state_ ms <> Moving ->
  driveCallback now d ms
  = (if negb (isStationary d)
     then set_last_commanded_movement_time (stamp d) ms else ms,
     [pub_safe_drive (mkDrive (stamp d) 0 0 0 0)]).
Proof.
  intros Hs. unfold MotionSafety.driveCallback.
  set (ms1 := if negb (isStationary d) then _ else ms).
  assert (E : state_ ms1 = state_ ms)
    by (subst ms1; destruct (negb (isStationary d)); reflexivity).
  rewrite E. destruct (state_ ms); try congruence; reflexivity.
Qed.

Lemma step_keeps_fault (ms : MotionSafety.t) (c : call) :
  state_ ms = Fault -> state_ (step ms c) = Fault.
Proof.
  intros Hs. destruct c as [now mok|now d|data|status|e|d]; cbn [MotionSafety.step].
  - assert (Hf : state_ (fst (checkFaults ms)) = Fault)
      by (destruct (checkFaults_state ERROR_BRK_DET ms) as [E | E]; congruence).
    destruct (cycle_from_fault ERROR_BRK_DET ERROR_ESTOP_RESET PATTERN_DFLASH
                isStationary now mok ms Hf) as [E _].
    fold (cycle_end now mok ms). rewrite E. exact Hf.
  - now rewrite driveCallback_state.
  - unfold estopCallback. destruct data; cbn [fst]; [|exact Hs].
    rewrite Hs. exact Hs.
  - exact Hs.
  - exact Hs.
  - exact Hs.
Qed.

(** X12.  [Fault] is never left: from a node in [Fault], after every
    sequence of callbacks the node is in [Fault], every cycle publishes the
    estop asserted, and every drive command is answered with zero wheel
    speeds. *)
Theorem fault_is_terminal (ms : MotionSafety.t) (cs : list call) :
  state_ ms = Fault ->
  state_ (run ms cs) = Fault /\
  (forall now mok, cycle_estop now mok (run ms cs) = true) /\
  (forall now cmd,
      snd (driveCallback now cmd (run ms cs))
      = [pub_safe_drive (mkDrive (stamp cmd) 0 0 0 0)]).
Proof.
  intros Hs.
  assert (Hrun : state_ (run ms cs) = Fault).
  { revert ms Hs. induction cs as [|c cs IH]; intros ms Hs; [exact Hs|].
    cbn. apply IH. now apply step_keeps_fault. }
  split; [exact Hrun|]. split.
  - intros now mok.
    assert (Hf : state_ (fst (checkFaults (run ms cs))) = Fault)
      by (destruct (checkFaults_state ERROR_BRK_DET (run ms cs)) as [E | E]; congruence).
    exact (proj2 (cycle_from_fault ERROR_BRK_DET ERROR_ESTOP_RESET PATTERN_DFLASH
                    isStationary now mok _ Hf)).
  - intros now cmd. rewrite driveCallback_zero; [reflexivity | congruence].
Qed.



(** The messages and the ambience of a cycle, from the blocks. *)
Lemma ambience_table (now : ros.Time) (mok : bool) (ms : MotionSafety.t) :
  let ramping :=
    match state_ (fst (checkFaults ms)) with
    | Starting => true
    | Stopped => startRequested now ms
    | _ => false
    end in
  snd (watchdogCallback now mok ms)
  = snd (checkFaults ms)
    ++ [pub_ambience (cycle_ambience now mok ms); pub_estop (cycle_estop now mok ms)] /\
  cycle_ambience now mok ms
  = if ramping
    then mkAmbience PATTERN_DFLASH PATTERN_DFLASH PATTERN_DFLASH PATTERN_DFLASH
    else Ambience0.
Proof.
  cbv zeta. split; [exact (proj2 (cycle_projections now mok ms))|].
  unfold MotionSafety.cycle_ambience. rewrite watchdogCycle_blocks.
  cbv zeta. cbn [fst snd].
  destruct (entry_reads now ms) as (Hg & _ & He).
  destruct (reads_agree now true true ms _ Hg) as (Hstart & _ & _).
  rewrite <- He, <- Hstart.
  generalize (cycle_encoders_ok now ms). intros eok.
  generalize (entry now ms). intros ms2.
  unfold MotionSafety.stoppedBlock, MotionSafety.stoppedBlockAt, MotionSafety.startingBlock, MotionSafety.startingBlockAt,
    MotionSafety.startRequested.
  destruct (state_ ms2) eqn:Hs; cbn [eqb]; rewrite ?Hs; cbn [eqb snd]; try reflexivity.
  destruct ((now - last_commanded_movement_time_ ms2 <? ros.msec 100)
            && negb (isEstopped ms2)); cbn [state_ set_state set_transition_to_moving_time eqb snd];
    rewrite ?Hs; reflexivity.
Qed.


(** X14.  The messages of a cycle are those of its fault check, then the
    ambience, then the estop.  The ambience carries the double flash
    pattern in all four fields exactly when the cycle runs the [Starting]
    block: when its fault check leaves [Starting], or leaves [Stopped] with
    a start requested; in every other cycle all four fields are zero. *)
Theorem cycle_ambience_flashes (now : ros.Time) (mok : bool) (ms : MotionSafety.t) :
  let ramping :=
    match state_ (fst (checkFaults ms)) with
    | Starting => true
    | Stopped => startRequested now ms
    | _ => false
    end in
  snd (watchdogCallback now mok ms)
  = snd (checkFaults ms)
    ++ [pub_ambience (cycle_ambience now mok ms); pub_estop (cycle_estop now mok ms)] /\
  cycle_ambience now mok ms
  = if ramping
    then mkAmbience PATTERN_DFLASH PATTERN_DFLASH PATTERN_DFLASH PATTERN_DFLASH
    else Ambience0.
Proof. exact (ambience_table now mok ms). Qed.

(** X15.  Drive commands, controller statuses and the messages of the
    encoders monitor never change the safety state: only a watchdog cycle
    or a user estop with value true does.  And the history of the limiters
    advances only on a drive command that arrives in [Moving]. *)
Theorem callbacks_leave_alone (ms : MotionSafety.t) (c : call) :
  (state_ (step ms c) <> state_ ms ->
   is_watchdog c = true \/ c = call_estopCallback true) /\
  (accel_limiters_ (step ms c) <> accel_limiters_ ms ->
   exists now d, c = call_driveCallback now d /\ state_ ms = Moving).
Proof.
  destruct c as [now mok|now d|data|status|e|d]; cbn [MotionSafety.step].
  - split; [intros _; now left|]. intros H. exfalso. apply H.
    apply (cycle_end_limiters ERROR_BRK_DET ERROR_ESTOP_RESET PATTERN_DFLASH
             isStationary now mok ms).
  - split.
    + intros H. exfalso. apply H. apply driveCallback_state.
    + intros H. exists now, d. split; [reflexivity|].
      destruct (state_ ms) eqn:Hs; try reflexivity; exfalso; apply H;
        rewrite driveCallback_zero by congruence; cbn [fst];
        destruct (negb (isStationary d)); reflexivity.
  - destruct data; [|split; intros H; now elim H].
    split; [intros _; now right|]. intros H. exfalso. apply H.
    unfold estopCallback. cbn [fst]. destruct (eqb (state_ ms) Fault); reflexivity.
  - split; intros H; now elim H.
  - split; intros H; now elim H.
  - split; intros H; now elim H.
Qed.

(** ** The precharge clock *)

Lemma checkPrecharge_settled (t0 : ros.Time) (ms : MotionSafety.t) :
  precharge_settled t0 ms ->
  snd (checkPrecharge ms) = [] /\ precharge_settled t0 (fst (checkPrecharge ms)).
Proof.
  intros [Hclear Hstamp]. unfold MotionSafety.checkPrecharge.
  destruct (last_mcu_status_ ms) as [status|] eqn:E.
  2:{ cbn [fst snd]. split; [reflexivity|]. split; [exact Hclear|].
      intros st Hst. rewrite E in Hst. discriminate. }
  specialize (Hstamp status eq_refl).
  destruct (negb (flag ERROR_BRK_DET (error status)));
    cbn [last_non_precharge_time_ set_last_non_precharge_time].
  - destruct (Z.gtb_spec (status_stamp status - status_stamp status) (ros.sec 4))
      as [Hgt|Hle]; [unfold ros.sec in Hgt; lia|].
    cbn [fst snd]. split; [reflexivity|]. split; cbn; [lia|].
    rewrite E. intros ? [= <-]. lia.
  - destruct (Z.gtb_spec (status_stamp status - last_non_precharge_time_ ms) (ros.sec 4))
      as [Hgt|Hle]; [lia|].
    cbn [fst snd]. split; [reflexivity|]. split; [exact Hclear|].
    rewrite E. intros ? [= <-]. lia.
Qed.

Lemma precharge_settled_view (t0 : ros.Time) (ms ms' : MotionSafety.t) :
  precharge_view ms' = precharge_view ms ->
  precharge_settled t0 ms -> precharge_settled t0 ms'.
Proof.
  unfold precharge_view, precharge_settled. intros [= -> ->]. tauto.
Qed.

Lemma step_settled (t0 : ros.Time) (ms : MotionSafety.t) (c : call) :
  (forall status, c = call_mcuStatusCallback status ->
                  t0 <= status_stamp status <= t0 + ros.sec 4) ->
  precharge_settled t0 ms -> precharge_settled t0 (step ms c).
Proof.
  intros Hc Hms. destruct c as [now mok|now d|data|status|e|d]; cbn [MotionSafety.step].
  - apply (precharge_settled_view t0 (fst (checkPrecharge ms))).
    + apply (cycle_end_precharge ERROR_BRK_DET ERROR_ESTOP_RESET PATTERN_DFLASH
               isStationary now mok ms).
    + now apply checkPrecharge_settled.
  - apply (precharge_settled_view t0 ms); [|exact Hms].
    apply (driveCallback_precharge isStationary).
  - apply (precharge_settled_view t0 ms); [|exact Hms].
    apply estopCallback_precharge.
  - destruct Hms as [Hclear _]. split; [exact Hclear|].
    cbn. intros ? [= <-]. now apply Hc.
  - exact Hms.
  - exact Hms.
Qed.

(** X16.  The precharge fault needs the bit set for more than four
    seconds.  After a cycle whose status has the precharge bit clear, the
    precharge check raises no fault, whatever callbacks follow, as long as
    the statuses delivered are stamped within four seconds of that
    status. *)
Theorem precharge_fault_needs_four_seconds (ms : MotionSafety.t) (status : RawStatus)
    (now : ros.Time) (mok : bool) (cs : list call) :
  last_mcu_status_ ms = Some status ->
  flag ERROR_BRK_DET (error status) = false ->
  (forall st, delivers_status cs st ->
              status_stamp status <= status_stamp st <= status_stamp status + ros.sec 4) ->
  last_non_precharge_time_ (cycle_end now mok ms) = status_stamp status /\
  snd (checkPrecharge (run (cycle_end now mok ms) cs)) = [].
Proof.
  intros Hst Hbit Hcs.
  assert (Hv : precharge_view (cycle_end now mok ms) = (Some status, status_stamp status)).
  { rewrite (cycle_end_precharge ERROR_BRK_DET ERROR_ESTOP_RESET PATTERN_DFLASH
               isStationary now mok ms).
    unfold MotionSafety.checkPrecharge. rewrite Hst, Hbit. cbn [negb].
    cbn [last_non_precharge_time_ set_last_non_precharge_time].
    destruct (Z.gtb_spec (status_stamp status - status_stamp status) (ros.sec 4))
      as [Hgt|Hle]; [unfold ros.sec in Hgt; lia|].
    unfold precharge_view. cbn. now rewrite Hst. }
  split; [unfold precharge_view in Hv; congruence|].
  assert (H0 : precharge_settled (status_stamp status) (cycle_end now mok ms)).
  { unfold precharge_settled, precharge_view in *. injection Hv as -> ->.
    split; [lia|]. intros ? [= <-]. unfold ros.sec. lia. }
  generalize dependent (cycle_end now mok ms). intros ms1 _ H0.
  apply (checkPrecharge_settled (status_stamp status)).
  revert ms1 H0. unfold delivers_status in Hcs.
  induction cs as [|c cs IH]; intros ms1 H0; [exact H0|].
  cbn. apply IH.
  - intros st Hin. apply Hcs. now right.
  - apply step_settled; [|exact H0]. intros st ->. apply Hcs. now left.
Qed.

(** X17.  The time of the last command to move starts at time zero.  So
    on a node fresh from its constructor a first cycle run while the clock
    reads less than a tenth of a second leaves [Stopped] with no command
    received; no encoder feedback having arrived, it ends in
    [PendingStopped], with the flashing ambience and the estop asserted. *)
Theorem first_cycle_near_time_zero (width radius max_accel : Q)
    (now : ros.Time) (mok : bool) :
  now < ros.msec 100 ->
  let ms := MotionSafety.new width radius max_accel in
  state_ (cycle_end now mok ms) = PendingStopped /\
  cycle_estop now mok ms = true /\
  cycle_ambience now mok ms
  = mkAmbience PATTERN_DFLASH PATTERN_DFLASH PATTERN_DFLASH PATTERN_DFLASH.
Proof.
  intros Hnow ms.
  assert (Hstart : startRequested now ms = true).
  { unfold MotionSafety.startRequested. cbn. rewrite andb_true_r.
    apply Z.ltb_lt. unfold ros.Time0. lia. }
  destruct (stopped_table now mok ms eq_refl) as (H1 & _ & H3);
    [cbn; unfold ros.sec; lia|].
  rewrite Hstart in H1, H3.
  change (cycle_encoders_ok now ms) with false in H1, H3.
  split; [exact H1|]. split; [exact H3|].
  rewrite (proj2 (ambience_table now mok ms)).
  change (state_ (fst (checkFaults ms))) with Stopped. cbv iota. now rewrite Hstart.
Qed.

End Table.

Lemma cycle_from_stopped_table_witness :
  let ms := Scenario.run_node Scenario.node (firstn 3 Scenario.towards_moving) in
  (MotionSafety.state_ (sample_cycle_endAt (MotionSafety.steady (ros.msec 1050)) true ms)
   = MotionStates.Starting /\
   MotionSafety.transition_to_moving_time_
     (sample_cycle_endAt (MotionSafety.steady (ros.msec 1050)) true ms)
   = ros.msec 1050 + ros.sec 2) /\
  (MotionSafety.state_ (sample_cycle_endAt Scenario.racing true ms) = MotionStates.Stopped /\
   MotionSafety.transition_to_moving_time_ (sample_cycle_endAt Scenario.racing true ms)
   = ros.msec 1100 + ros.sec 2).
Proof.
  intros ms. split.
  - assert (Hsd : MotionSafety.at_ramp_over (MotionSafety.steady (ros.msec 1050))
                  <= MotionSafety.at_start_deadline (MotionSafety.steady (ros.msec 1050))
                     + MotionSafety.starting_duration_ ms)
      by (vm_compute; discriminate).
    destruct (cycle_from_stopped_table Scenario.ERROR_BRK_DET Scenario.ERROR_ESTOP_RESET
                Scenario.PATTERN_DFLASH Scenario.isStationary
                (MotionSafety.steady (ros.msec 1050)) true ms eq_refl Hsd) as (E & T & _).
    split; [rewrite E; reflexivity | rewrite (T eq_refl); reflexivity].
  - assert (Hsd : MotionSafety.at_ramp_over Scenario.racing
                  <= MotionSafety.at_start_deadline Scenario.racing
                     + MotionSafety.starting_duration_ ms)
      by (vm_compute; discriminate).
    destruct (cycle_from_stopped_table Scenario.ERROR_BRK_DET Scenario.ERROR_ESTOP_RESET
                Scenario.PATTERN_DFLASH Scenario.isStationary
                Scenario.racing true ms eq_refl Hsd) as (E & T & _).
    split; [rewrite E; reflexivity | rewrite (T eq_refl); reflexivity].
Defined.

(** The clock running on within one cycle: the command is 99 ms old when
    the [Stopped] block asks for it and 102 ms old when the [Starting]
    block does.  The cycle leaves [Stopped], stores the deadline and
    flashes the ambience, yet ends in [Stopped], the monitors being ok. *)
Example start_then_lapse_in_one_cycle :
  let ms := Scenario.run_node Scenario.node (firstn 3 Scenario.towards_moving) in
  let out :=
    MotionSafety.watchdogCallbackAt Scenario.ERROR_BRK_DET Scenario.ERROR_ESTOP_RESET
      Scenario.PATTERN_DFLASH Scenario.isStationary Scenario.racing true ms in
  MotionSafety.ordered Scenario.racing /\
  MotionSafety.state_ ms = MotionStates.Stopped /\
  MotionSafety.cycle_encoders_okAt Scenario.ERROR_BRK_DET Scenario.racing ms = true /\
  MotionSafety.state_ (fst out) = MotionStates.Stopped /\
  MotionSafety.transition_to_moving_time_ (fst out) = ros.msec 1100 + ros.sec 2 /\
  snd out
  = [ MotionSafety.pub_ambience
        (mkAmbience Scenario.PATTERN_DFLASH Scenario.PATTERN_DFLASH
           Scenario.PATTERN_DFLASH Scenario.PATTERN_DFLASH);
      MotionSafety.pub_estop false ].
Proof.
  split; [unfold MotionSafety.ordered; vm_compute; intuition discriminate|].
  repeat split; reflexivity.
Qed.



Lemma fault_is_terminal_witness :
  let ms := sample_cycle_end (ros.msec 5050) true Scenario.precharging_node in
  let later :=
    Scenario.run_node ms
      [ MotionSafety.call_mcuStatusCallback (mkRawStatus (ros.sec 6) 0);
        MotionSafety.call_estopCallback true;
        MotionSafety.call_watchdogCallback (ros.msec 6050) true ] in
  MotionSafety.state_ later = MotionStates.Fault /\
  snd (MotionSafety.driveCallback Scenario.isStationary (ros.sec 7)
         (Scenario.all_turning (ros.sec 7)) later)
  = [MotionSafety.pub_safe_drive (Scenario.at_rest (ros.sec 7))].
Proof.
  intros ms later.
  destruct (fault_is_terminal Scenario.ERROR_BRK_DET Scenario.ERROR_ESTOP_RESET
              Scenario.PATTERN_DFLASH Scenario.isStationary ms
              [ MotionSafety.call_mcuStatusCallback (mkRawStatus (ros.sec 6) 0);
                MotionSafety.call_estopCallback true;
                MotionSafety.call_watchdogCallback (ros.msec 6050) true ]
              eq_refl) as (H1 & _ & H3).
  split; [exact H1|]. exact (H3 (ros.sec 7) (Scenario.all_turning (ros.sec 7))).
Defined.

Lemma precharge_fault_needs_four_seconds_witness :
  let ms := sample_cycle_end (ros.msec 2050) true Scenario.pending_node in
  MotionSafety.last_non_precharge_time_ ms = ros.sec 2 /\
  snd (MotionSafety.checkPrecharge Scenario.ERROR_BRK_DET
         (Scenario.run_node ms
            [ MotionSafety.call_mcuStatusCallback
                (mkRawStatus (ros.sec 5) Scenario.ERROR_BRK_DET) ]))
  = [].
Proof.
  apply (precharge_fault_needs_four_seconds Scenario.ERROR_BRK_DET
           Scenario.ERROR_ESTOP_RESET Scenario.PATTERN_DFLASH Scenario.isStationary
           Scenario.pending_node (mkRawStatus (ros.sec 2) Scenario.ERROR_ESTOP_RESET)
           (ros.msec 2050) true
           [ MotionSafety.call_mcuStatusCallback
               (mkRawStatus (ros.sec 5) Scenario.ERROR_BRK_DET) ]);
    try reflexivity.
  intros st [Hst | []]. injection Hst as <-. vm_compute. split; discriminate.
Defined.

Lemma first_cycle_near_time_zero_witness :
  MotionSafety.state_ (sample_cycle_end (ros.msec 50) true Scenario.node)
  = MotionStates.PendingStopped.
Proof.
  apply (first_cycle_near_time_zero Scenario.ERROR_BRK_DET Scenario.ERROR_ESTOP_RESET
           Scenario.PATTERN_DFLASH Scenario.isStationary 1 0.25 0.5 (ros.msec 50) true).
  reflexivity.
Defined.
